(** * cdparanoia: drive cache analysis ([paranoia/cachetest.c])

    A shallow embedding of [paranoia_analyze_verify].  The drive is an
    external collaborator: it is an abstract state with the operations of
    [cdda_interface.h].  The routine is written in a small monad that
    threads the drive, records every call made to the drive and every
    [reportC] message in order, and models the early [return]s of the C
    function.

    C [int]s are modelled by [Z]; sector numbers and loop counters stay far
    below 2^31 on any compact disc.  The [double]/[float] arithmetic of the
    timing statistics is modelled by exact real arithmetic ([R]): rounding
    is left out.  The arrays [latency] and [sectors] are one list of pairs,
    and the sums the sampling loop accumulates are computed from it. *)

From Stdlib Require Import ZArith List Bool Lia Reals Lra Permutation.
Import ListNotations.
Open Scope Z_scope.

(** ** The drive session *)

Class Drive (D : Type) := {
  cdda_tracks : D -> Z;
  cdda_track_audiop : D -> Z -> Z;
  cdda_track_firstsector : D -> Z -> Z;
  cdda_track_lastsector : D -> Z -> Z;
  (** [cdda_read d NULL begin sectors]: sectors read (or an error code)
      and the drive afterwards. *)
  cdda_read : D -> Z -> Z -> Z * D;
  (** elapsed time of the last operation, [-1] on a timing fault *)
  cdda_milliseconds : D -> Z;
  (** zero on success *)
  cdda_speed_set : D -> Z -> Z * D
}.

(** ** Observable events *)

(** Where [cdda_milliseconds] is evaluated: as a baseline sample, inside a
    [logC] argument list (only when a log sink is present), or in the
    timing test that decides a round. *)
Inductive site := InSample | InLog | InCheck.

Inductive message :=
| MsgBanner
| MsgNoAudio
| MsgSeekReadTiming
| MsgNewline
| MsgTimestamp (m s f : Z)
| MsgSetupMediaError
| MsgReadMediaError
| MsgAnalyzing
| MsgFastSearch (n : Z)
| MsgSlowVerify (n : Z)
| MsgTooManyReadErrors
| MsgReadErrorRetry
| MsgTimingError
| MsgCannotDetermine
| MsgCacheSize (n : Z)
| MsgNoCache
| MsgExceedsModel
| MsgVerifyContiguous
| MsgOutOfSpace
| MsgNonContiguous
| MsgContiguous.

Inductive event :=
| EvRead (begin sectors result : Z)
| EvMs (s : site) (ms : Z)
| EvSpeed (speed result : Z)
| EvReport (m : message).

Definition message_eqb (a b : message) : bool :=
  match a, b with
  | MsgBanner, MsgBanner | MsgNoAudio, MsgNoAudio
  | MsgSeekReadTiming, MsgSeekReadTiming | MsgNewline, MsgNewline
  | MsgSetupMediaError, MsgSetupMediaError
  | MsgReadMediaError, MsgReadMediaError | MsgAnalyzing, MsgAnalyzing
  | MsgTooManyReadErrors, MsgTooManyReadErrors
  | MsgReadErrorRetry, MsgReadErrorRetry | MsgTimingError, MsgTimingError
  | MsgCannotDetermine, MsgCannotDetermine | MsgNoCache, MsgNoCache
  | MsgExceedsModel, MsgExceedsModel
  | MsgVerifyContiguous, MsgVerifyContiguous
  | MsgOutOfSpace, MsgOutOfSpace | MsgNonContiguous, MsgNonContiguous
  | MsgContiguous, MsgContiguous => true
  | MsgTimestamp m s f, MsgTimestamp m' s' f' =>
      (m =? m') && (s =? s') && (f =? f')
  | MsgFastSearch n, MsgFastSearch n' => n =? n'
  | MsgSlowVerify n, MsgSlowVerify n' => n =? n'
  | MsgCacheSize n, MsgCacheSize n' => n =? n'
  | _, _ => false
  end.

Definition is_read (e : event) : bool :=
  match e with EvRead _ _ _ => true | _ => false end.


Definition reported (m : message) (e : event) : bool :=
  match e with EvReport m' => message_eqb m m' | _ => false end.

(** ** The monad: drive state, event trace, early return *)

Inductive step (A : Type) :=
| Next (a : A)
| Exit (code : Z).
Arguments Next {A} a.
Arguments Exit {A} code.

Definition M (D A : Type) : Type := D -> step A * D * list event.

Definition ret {D A} (a : A) : M D A := fun d => (Next a, d, []).

Definition exit {D A} (code : Z) : M D A := fun d => (Exit code, d, []).

Definition bind {D A B} (m : M D A) (f : A -> M D B) : M D B :=
  fun d =>
    match m d with
    | (Next a, d1, e1) =>
        match f a d1 with
        | (r, d2, e2) => (r, d2, e1 ++ e2)
        end
    | (Exit c, d1, e1) => (Exit c, d1, e1)
    end.

Notation "x <- m ;; k" := (bind m (fun x => k))
  (at level 61, m at next level, right associativity).
Notation "m ;; k" := (bind m (fun _ => k))
  (at level 61, right associativity).

Definition status {D A} (r : step A * D * list event) : step A := fst (fst r).
Definition drive_of {D A} (r : step A * D * list event) : D := snd (fst r).
Definition trace {D A} (r : step A * D * list event) : list event := snd r.

Section Probe.

Context {D : Type} `{Drive D}.

(** [CACHEMODEL_SECTORS] is defined in [p_block.h]. *)
Variable CACHEMODEL_SECTORS : Z.

(** [log] tells whether the [FILE *log] sink is present; the arguments of a
    [logC] are evaluated only then. *)
Variable log : bool.

Definition reportC (m : message) : M D unit :=
  fun d => (Next tt, d, [EvReport m]).

Definition read (begin sectors : Z) : M D Z :=
  fun d => let (r, d') := cdda_read d begin sectors in
           (Next r, d', [EvRead begin sectors r]).

Definition milliseconds (s : site) : M D Z :=
  fun d => (Next (cdda_milliseconds d), d, [EvMs s (cdda_milliseconds d)]).

Definition speed_set (speed : Z) : M D Z :=
  fun d => let (r, d') := cdda_speed_set d speed in
           (Next r, d', [EvSpeed speed r]).

Definition logC_ms : M D unit :=
  if log then (_ <- milliseconds InLog;; ret tt) else ret tt.

(** What a [logC] with a timing argument adds to the trace. *)
Definition logq (d : D) : list event :=
  if log then [EvMs InLog (cdda_milliseconds d)] else [].

(** ** Longest stretch of audio (lines 75-95) *)

Record span := {
  firstsector : Z;
  lastsector : Z;
  firsttest : Z;
  lasttest : Z
}.

Definition span0 : span :=
  {| firstsector := -1; lastsector := -1; firsttest := -1; lasttest := -1 |}.

(** Body of the [for] over the tracks, for index [i]. *)
Definition scan_track (d : D) (i : Z) (s : span) : span :=
  if cdda_track_audiop d (i + 1) =? 1 then
    let ft := if firsttest s =? -1 then cdda_track_firstsector d (i + 1)
              else firsttest s in
    let lt := cdda_track_lastsector d (i + 1) in
    if lastsector s - firstsector s <? lt - ft then
      {| firstsector := ft; lastsector := lt; firsttest := ft; lasttest := lt |}
    else
      {| firstsector := firstsector s; lastsector := lastsector s;
         firsttest := ft; lasttest := lt |}
  else
    {| firstsector := firstsector s; lastsector := lastsector s;
       firsttest := -1; lasttest := -1 |}.

Fixpoint scan_tracks (d : D) (n : nat) (i : Z) (s : span) : span :=
  match n with
  | O => s
  | S n' => scan_tracks d n' (i + 1) (scan_track d i s)
  end.

Definition longest_audio (d : D) : span :=
  scan_tracks d (Z.to_nat (cdda_tracks d)) 0 span0.

(** ** Outlier-rejecting statistics (lines 164-180)

    A sample is a pair (latency in ms, sectors served); the sample at
    index 0 is the one-sector trigger read. *)

Definition sample : Type := (Z * Z)%type.

(** The sample window, [int current=1000] of the timing block. *)
Definition window : Z := 1000.

(** The accumulation [sum+=x] of lines 158-161 over the samples after the
    trigger. *)
Fixpoint sum_of (samples : list sample) : R :=
  match samples with
  | [] => 0%R
  | (x, _) :: tl => (IZR x + sum_of tl)%R
  end.

(** The accumulation [sumsq+= x*x /(float)ret]. *)
Fixpoint sumsq_of (samples : list sample) : R :=
  match samples with
  | [] => 0%R
  | (x, r) :: tl => (IZR (x * x) / IZR r + sumsq_of tl)%R
  end.

Definition raw_mean (sum : R) : R := (sum / IZR (window - 1))%R.

Definition raw_variance (sum sumsq : R) : R :=
  (sumsq / IZR (window - 1) - raw_mean sum * raw_mean sum)%R.

(** [sqrt] of a negative real is 0, where the C code gets a NaN; the
    bound is [mean + 1] for both. *)
Definition stddev_of (sum sumsq : R) : R := sqrt (raw_variance sum sumsq).

Definition upper_of (sum sumsq : R) : R :=
  (raw_mean sum +
   (if Rlt_dec (stddev_of sum sumsq * 2) 1 then 1
    else stddev_of sum sumsq * 2))%R.

Definition per_sector (s : sample) : R := (IZR (fst s) / IZR (snd s))%R.

(** The loop [for(j=1;j<i;j++)] of lines 173-179 over the samples after
    the trigger, from the accumulators [mean] and [sofar]. *)
Fixpoint second_pass (upper : R) (samples : list sample) (mean : R)
  (sofar : Z) : R * Z :=
  match samples with
  | [] => (mean, sofar)
  | s :: tl =>
      if Rle_dec (per_sector s) upper then
        second_pass upper tl (mean + IZR (fst s))%R (sofar + snd s)
      else second_pass upper tl mean sofar
  end.

(** Lines 166-180: the reported mean latency per sector of a sample array. *)
Definition reported_mean (samples : list sample) : R :=
  let sum := sum_of (tl samples) in
  let sumsq := sumsq_of (tl samples) in
  let upper := upper_of sum sumsq in
  let '(mean, sofar) := second_pass upper (tl samples) 0%R 0 in
  (mean / IZR sofar)%R.

(** Conversion of a [double] to [int]: truncation toward zero. *)
Definition Rtrunc (r : R) : Z :=
  if Rle_dec 0 r then Int_part r else - Int_part (- r).

(** ** Baseline timing (lines 97-210) *)

Record plateau := {
  best : Z;
  bestcount : Z;
  iterating : bool
}.

(** Lines 187-197. *)
Definition plateau_step (p : plateau) (sofar : Z) : plateau :=
  if iterating p then p
  else if - sofar <? best p then
    {| best := - sofar; bestcount := 0; iterating := false |}
  else
    let bc := bestcount p + sofar in
    {| best := best p; bestcount := bc;
       iterating := (sofar <? bc) && (2000 <? bc) |}.

(** Lines 201-208, the step at label [next]. *)
Definition next_offset (p : plateau) (first offset : Z) : Z :=
  if iterating p then
    Z.quot (offset - first + 44999) 45000 * 45000 + first - 45000
  else offset - 1.

Definition clamp_ms (x : Z) : Z :=
  let x := if 9999 <? x then 9999 else x in
  if x <? 0 then 0 else x.

(** Lines 139-162: the sampling loop at one offset.  [samples] holds
    [latency[0..i-1]] and [sectors[0..i-1]].  [None] stands for [goto next].
    Every read adds at least one sector, so [window] passes are enough. *)
Fixpoint sample_reads (fuel : nat) (offset i sofar : Z)
  (samples : list sample) : M D (option (list sample)) :=
  match fuel with
  | O => ret (Some samples)
  | S fuel' =>
      if sofar <? window then
        let toread := if i =? 0 then 1 else window - sofar in
        r <- read (offset + sofar) toread;;
        if r <=? 0 then
          if r =? -404 then exit (-1)
          else reportC MsgReadMediaError;; ret None
        else
          x <- milliseconds InSample;;
          let x := clamp_ms x in
          sample_reads fuel' offset (i + 1) (sofar + r) (samples ++ [(x, r)])
      else ret (Some samples)
  end.

(** Lines 116-198: the work at one offset, up to label [next]. *)
Definition sample_offset (p : plateau) (offset : Z) : M D plateau :=
  let m := Z.quot offset 4500 in
  let s := Z.quot (offset - m * 4500) 75 in
  let f := offset - m * 4500 - s * 75 in
  (if iterating p then reportC MsgNewline else ret tt);;
  reportC (MsgTimestamp m s f);;
  r <- read (offset + window + 1) 1;;
  if r <? 0 then
    if r =? -404 then exit (-1)
    else reportC MsgSetupMediaError;; ret p
  else
    got <- sample_reads (Z.to_nat window) offset 0 0 [];;
    match got with
    | None => ret p
    | Some samples =>
        let mean := reported_mean samples in
        let sofar := Rtrunc (mean * IZR window) in
        ret (plateau_step p sofar)
    end.

(** Lines 115-209: [while(offset>=firstsector)]; the offset drops by at
    least one per pass. *)
Fixpoint baseline_loop (fuel : nat) (first : Z) (p : plateau) (offset : Z)
  : M D unit :=
  match fuel with
  | O => ret tt
  | S fuel' =>
      if first <=? offset then
        p <- sample_offset p offset;;
        baseline_loop fuel' first p (next_offset p first offset)
      else ret tt
  end.

Definition baseline (first last : Z) : M D unit :=
  let offset := last - first - window - 1 in
  reportC MsgSeekReadTiming;;
  baseline_loop (Z.to_nat (offset - first + 1)) first
    {| best := 0; bestcount := 0; iterating := false |} offset.

(** ** Cache size search (lines 218-286) *)

Definition hi : Z := 15000.

(** Lines 253-258: the slow fill read of [current] sectors from [offset].
    Every pass but the last adds at least one sector, so [Z.to_nat current]
    passes are enough; [ret1] is the result of the last read. *)
Fixpoint slow_fill (fuel : nat) (offset current sofar ret1 : Z) : M D Z :=
  match fuel with
  | O => ret ret1
  | S fuel' =>
      if sofar <? current then
        ret1 <- read (offset + sofar) (current - sofar);;
        logC_ms;;
        if ret1 <=? 0 then ret ret1
        else slow_fill fuel' offset current (sofar + ret1) ret1
      else ret ret1
  end.

(** Lines 234-264: the two reads of one attempt of round [i]. *)
Definition search_reads (i current offset : Z) : M D (Z * Z) :=
  ret1 <- (if 5 <=? i then
             (if i =? 5 then
                reportC (MsgSlowVerify (current - 1));;
                _ <- speed_set 1;;
                ret tt
              else ret tt);;
             slow_fill (Z.to_nat current) offset current 0 0
           else
             r <- read (offset + current - 1) 1;;
             logC_ms;;
             ret r);;
  ret2 <- read offset 1;;
  logC_ms;;
  ret (ret1, ret2).

(** Lines 233-284: round [i] of probe length [current], the [for(j=0;;j++)]
    loop.  [left] is [10 - j].  Returns [under] and the test offset. *)
Fixpoint search_round (left : nat) (last i current offset : Z)
  : M D (bool * Z) :=
  rr <- search_reads i current offset;;
  let '(ret1, ret2) := rr in
  if (ret1 <=? 0) || (ret2 <=? 0) then
    let offset := offset + (current + 100) in
    match left with
    | O => reportC MsgTooManyReadErrors;; exit (-1)
    | S left' =>
        if last <? offset + current then
          reportC MsgTooManyReadErrors;; exit (-1)
        else
          reportC MsgReadErrorRetry;;
          search_round left' last i current offset
    end
  else
    ms <- milliseconds InCheck;;
    if ms =? -1 then reportC MsgTimingError;; exit (-1)
    else ret (ms <? 9, offset).

(** Lines 232-285: [for(i=0;i<15 && !under;i++)], with [n = 15 - i]. *)
Fixpoint search_rounds (n : nat) (last i current offset : Z)
  : M D (bool * Z) :=
  match n with
  | O => ret (false, offset)
  | S n' =>
      r <- search_round 10 last i current offset;;
      let '(under, offset) := r in
      if under then ret (true, offset)
      else search_rounds n' last (i + 1) current offset
  end.

(** One pass of the [while] body (lines 224-285) for the incremented
    [current]. *)
Definition search_probe (last current offset : Z) : M D (bool * Z) :=
  reportC (MsgFastSearch (current - 1));;
  search_rounds 15 last 0 current offset.

(** Lines 223-286: [while(current <= hi && under)], entered with [under]
    set.  Returns the final [current], [under] and [offset]. *)
Fixpoint search_loop (fuel : nat) (last current offset : Z)
  : M D (Z * bool * Z) :=
  match fuel with
  | O => ret (current, true, offset)
  | S fuel' =>
      if current <=? hi then
        let current := current + 1 in
        r <- search_probe last current offset;;
        let '(under, offset) := r in
        if under then search_loop fuel' last current offset
        else ret (current, false, offset)
      else ret (current, true, offset)
  end.

Definition search (first last : Z) : M D (Z * bool * Z) :=
  search_loop (Z.to_nat (hi + 1)) last 0 first.

(** ** Contiguity check (lines 312-360) *)

(** Lines 319-352: one round, the [for(j=0;;j++)] loop; [left] is [10 - j]. *)
Fixpoint contig_round (left : nat) (last current seekoff offset : Z)
  : M D (bool * Z) :=
  if last <? offset + seekoff then reportC MsgOutOfSpace;; exit (-1)
  else
    ret1 <- read (offset + seekoff) 1;;
    logC_ms;;
    ret2 <- read offset 1;;
    logC_ms;;
    if (ret1 <=? 0) || (ret2 <=? 0) then
      let offset := offset + (current + 100) in
      match left with
      | O => reportC MsgTooManyReadErrors;; exit (-1)
      | S left' =>
          reportC MsgReadErrorRetry;;
          contig_round left' last current seekoff offset
      end
    else
      ms <- milliseconds InCheck;;
      if ms =? -1 then reportC MsgTimingError;; exit (-1)
      else ret (ms <? 9, offset).

(** Lines 317-353: [for(i=0;i<30 && !under;i++)], with [n = 30 - i]. *)
Fixpoint contig_rounds (n : nat) (last current seekoff offset : Z)
  : M D (bool * Z) :=
  match n with
  | O => ret (false, offset)
  | S n' =>
      r <- contig_round 10 last current seekoff offset;;
      let '(under, offset) := r in
      if under then ret (true, offset)
      else contig_rounds n' last current seekoff offset
  end.

(** Lines 312-360: returns the new value of [warn]. *)
Definition verify_contiguous (last current offset warn : Z) : M D Z :=
  let seekoff := current * 3 in
  reportC MsgVerifyContiguous;;
  r <- contig_rounds 30 last current seekoff offset;;
  if fst r then reportC MsgNonContiguous;; ret 1
  else reportC MsgContiguous;; ret warn.

(** ** The whole routine *)

(** Lines 288-371, from the end of the search. *)
Definition conclude (last current offset : Z) : M D Z :=
  if current =? hi then reportC MsgCannotDetermine;; exit 1
  else
    (if 1 <? current then reportC (MsgCacheSize (current - 1))
     else reportC MsgNoCache;; exit 0);;
    warn <- (if CACHEMODEL_SECTORS <? current - 1
             then reportC MsgExceedsModel;; ret 1 else ret 0);;
    warn <- verify_contiguous last current offset warn;;
    exit warn.

Definition analyze_verify : M D Z :=
  reportC MsgBanner;;
  sp <- (fun d => (Next (longest_audio d), d, []));;
  if firstsector sp =? -1 then reportC MsgNoAudio;; exit (-1)
  else
    baseline (firstsector sp) (lastsector sp);;
    reportC MsgAnalyzing;;
    r <- search (firstsector sp) (lastsector sp);;
    let '(current, _, offset) := r in
    conclude (lastsector sp) current offset.

Definition code_of (s : step Z) : Z :=
  match s with Next c => c | Exit c => c end.

(** [paranoia_analyze_verify(d, progress, log)]: the value returned and the
    events in order. *)
Definition paranoia_analyze_verify (d : D) : Z * list event :=
  let r := analyze_verify d in (code_of (status r), trace r).

End Probe.

Arguments paranoia_analyze_verify {D _} CACHEMODEL_SECTORS log d.
Arguments analyze_verify {D _} CACHEMODEL_SECTORS log.
Arguments logq {D _} log d.

(** ** A scripted drive

    A synthetic session: a table of contents, the elapsed time of the last
    operation, the answers to the next reads (the result, [None] for all the
    requested sectors, and the elapsed time) and the elapsed time of every
    read after those. *)

Record sim := {
  sim_toc : list (bool * Z * Z);
  sim_ms : Z;
  sim_script : list (option Z * Z);
  sim_rest : Z
}.

Definition sim_track (d : sim) (t : Z) : bool * Z * Z :=
  nth (Z.to_nat (t - 1)) (sim_toc d) (false, -1, -1).

Definition sim_read (d : sim) (begin sectors : Z) : Z * sim :=
  match sim_script d with
  | [] =>
      (sectors,
       {| sim_toc := sim_toc d; sim_ms := sim_rest d;
          sim_script := []; sim_rest := sim_rest d |})
  | (r, ms) :: tl =>
      (match r with None => sectors | Some v => v end,
       {| sim_toc := sim_toc d; sim_ms := ms;
          sim_script := tl; sim_rest := sim_rest d |})
  end.

#[global] Instance sim_drive : Drive sim := {
  cdda_tracks d := Z.of_nat (length (sim_toc d));
  cdda_track_audiop d t := if fst (fst (sim_track d t)) then 1 else 0;
  cdda_track_firstsector d t := snd (fst (sim_track d t));
  cdda_track_lastsector d t := snd (sim_track d t);
  cdda_read := sim_read;
  cdda_milliseconds := sim_ms;
  cdda_speed_set d speed := (0, d)
}.

(** A mixed-mode disc: a data track, then audio on sectors 50000-99999.  The
    baseline loop starts at 99999-50000-1001 = 48998, below the first audio
    sector, and takes no sample. *)
Definition mixed_disc : list (bool * Z * Z) :=
  [(false, 0, 49999); (true, 50000, 99999)].

(** An audio track too short for the contiguity check of a large cache. *)
Definition short_disc : list (bool * Z * Z) :=
  [(false, 0, 49999); (true, 50000, 90000)].

(** Audio on sectors 1000-3001: the baseline loop starts at
    3001-1000-1001 = 1000 and makes one pass. *)
Definition small_disc : list (bool * Z * Z) :=
  [(false, 0, 999); (true, 1000, 3001)].


Definition session (toc : list (bool * Z * Z)) (script : list (option Z * Z))
  (rest : Z) : sim :=
  {| sim_toc := toc; sim_ms := 0; sim_script := script; sim_rest := rest |}.


(** ** Reading sample arrays *)

(** Sectors served by a list of samples. *)
Fixpoint sectors_of (samples : list sample) : Z :=
  match samples with
  | [] => 0
  | s :: tl => snd s + sectors_of tl
  end.

(** Sum over the samples of a function of the latency per sector, every
    sample weighted by the sectors it served. *)
Fixpoint weighted_sum (f : R -> R) (samples : list sample) : R :=
  match samples with
  | [] => 0%R
  | s :: tl => (IZR (snd s) * f (per_sector s) + weighted_sum f tl)%R
  end.




(** The drive served at most the sectors that were asked for. *)
Definition served_as_asked (e : event) : bool :=
  match e with
  | EvRead _ n r => r <=? n
  | _ => true
  end.

(** A sample as the sampling loop stores it. *)
Definition stored (s : sample) : Prop :=
  0 <= fst s <= 9999 /\ 0 < snd s.

(** ** Reading traces *)

(** The elapsed times seen by the timing test of a round, in order: one per
    completed round. *)
Fixpoint checks (ev : list event) : list Z :=
  match ev with
  | [] => []
  | EvMs InCheck ms :: tl => ms :: checks tl
  | _ :: tl => checks tl
  end.



(** Events of the probing itself: drive calls, timing queries other than a
    faulted timing test, and progress messages.  The messages that end the
    routine (a verdict or a fatal condition) are not among them. *)
Definition probing (e : event) : bool :=
  match e with
  | EvRead _ _ _ => true
  | EvMs InCheck ms => negb (ms =? -1)
  | EvMs _ _ => true
  | EvSpeed _ _ => true
  | EvReport m =>
      match m with
      | MsgBanner | MsgSeekReadTiming | MsgNewline | MsgTimestamp _ _ _
      | MsgSetupMediaError | MsgReadMediaError | MsgAnalyzing
      | MsgFastSearch _ | MsgSlowVerify _ | MsgReadErrorRetry
      | MsgVerifyContiguous => true
      | _ => false
      end
  end.

(** Events of the reads of an attempt, and of the attempts of a round that
    are given up. *)
Definition trying (e : event) : bool :=
  match e with
  | EvRead _ _ _ | EvMs InLog _ | EvSpeed _ _ => true
  | EvReport (MsgSlowVerify _) | EvReport MsgReadErrorRetry => true
  | _ => false
  end.

(** The messages that tell a finding of the routine. *)
Definition finding (e : event) : bool :=
  match e with
  | EvReport m =>
      match m with
      | MsgCannotDetermine | MsgCacheSize _ | MsgNoCache | MsgExceedsModel
      | MsgNonContiguous | MsgContiguous => true
      | _ => false
      end
  | _ => false
  end.

(** Every event but those of a fatal condition. *)
Definition calm (e : event) : bool := probing e || finding e.

(** The last events of a run that is aborted. *)
Inductive fatal_tail : list event -> Prop :=
| ft_no_audio : fatal_tail [EvReport MsgNoAudio]
| ft_device begin sectors : fatal_tail [EvRead begin sectors (-404)]
| ft_read_errors : fatal_tail [EvReport MsgTooManyReadErrors]
| ft_timing : fatal_tail [EvMs InCheck (-1); EvReport MsgTimingError]
| ft_space : fatal_tail [EvReport MsgOutOfSpace].

(** A computation behaves when it either goes on, having emitted events of
    the class [P] only, or returns -1 after events of the class [P] followed
    by a fatal tail. *)
Definition behaves (P : event -> bool) {D A} (r : step A * D * list event)
  : Prop :=
  match status r with
  | Next _ => forallb P (trace r) = true
  | Exit c =>
      c = -1 /\
      exists pre t, trace r = pre ++ t /\ forallb P pre = true /\ fatal_tail t
  end.

(** The runs of the routine: the value returned and the trace, for the
    model limit [limit] ([CACHEMODEL_SECTORS]).  A run is aborted; or finds
    no cache; or cannot tell; or finds a cache of [size] sectors, warns if
    that exceeds the limit, checks contiguity and warns if the check found
    a hit ([under]). *)
Inductive outcome (limit : Z) : Z -> list event -> Prop :=
| out_aborted pre t :
    forallb calm pre = true -> fatal_tail t ->
    outcome limit (-1) (pre ++ t)
| out_no_cache pre :
    forallb probing pre = true ->
    outcome limit 0 (pre ++ [EvReport MsgNoCache])
| out_cannot_determine pre :
    forallb probing pre = true ->
    outcome limit 1 (pre ++ [EvReport MsgCannotDetermine])
| out_cache pre size mid (under : bool) :
    forallb probing pre = true -> forallb probing mid = true ->
    1 <= size ->
    outcome limit
      (if under || (limit <? size) then 1 else 0)
      (pre ++ EvReport (MsgCacheSize size) ::
       (if limit <? size then [EvReport MsgExceedsModel] else []) ++
       EvReport MsgVerifyContiguous :: mid ++
       [EvReport (if under then MsgNonContiguous else MsgContiguous)]).

(** The return code as a function of the messages: of the last one and of
    the presence of the exceeds-model warning. *)
Definition verdict_code (ev : list event) : Z :=
  match last ev (EvReport MsgBanner) with
  | EvReport MsgNoCache => 0
  | EvReport MsgCannotDetermine => 1
  | EvReport MsgNonContiguous => 1
  | EvReport MsgContiguous =>
      if existsb (reported MsgExceedsModel) ev then 1 else 0
  | _ => -1
  end.

(** The events after the first timing query that returned the fault
    sentinel at site [s], if there is one. *)
Fixpoint after_fault (s : site) (ev : list event) : option (list event) :=
  match ev with
  | [] => None
  | EvMs s' ms :: tl =>
      if (ms =? -1) &&
         match s, s' with
         | InSample, InSample | InLog, InLog | InCheck, InCheck => true
         | _, _ => false
         end
      then Some tl else after_fault s tl
  | _ :: tl => after_fault s tl
  end.

(** The timing tests of one probe length: misses, closed by a hit unless
    the budget of [n] rounds is used up.  [under] is the flag the rounds
    leave. *)
Definition probe_checks (n : nat) (under : bool) (cs : list Z) : Prop :=
  if under then
    exists misses h,
      cs = misses ++ [h] /\ Forall (fun ms => 9 <= ms) misses /\
      h < 9 /\ h <> -1 /\ (length misses < n)%nat
  else length cs = n /\ Forall (fun ms => 9 <= ms) cs.

(** The trace of a search that starts the probe after length [c] and leaves
    the loop with [current = c'] and the flag [under]: every probe length
    but the last ends with a hit, a last probe without a hit is the
    boundary. *)
Inductive probes : Z -> Z -> bool -> list event -> Prop :=
| probes_ceiling c : hi < c -> probes c c true []
| probes_boundary c ev :
    c <= hi ->
    probe_checks 15 false (checks ev) ->
    probes c (c + 1) false (EvReport (MsgFastSearch c) :: ev)
| probes_hit c c' under ev ev' :
    c <= hi ->
    probe_checks 15 true (checks ev) ->
    probes (c + 1) c' under ev' ->
    probes c c' under (EvReport (MsgFastSearch c) :: ev ++ ev').

(** ** More ways to read runs *)


(** What a step of the scan keeps: the chosen stretch is untouched or
    spans more than one sector, and the run under way is not longer. *)
Definition scan_inv (s : span) : Prop :=
  (firstsector s = -1 /\ lastsector s = -1 \/ firstsector s < lastsector s) /\
  lasttest s - firsttest s <= lastsector s - firstsector s.

(** All the events of a run are of the class [P]. *)
Definition emits (P : event -> bool) {D A} (r : step A * D * list event)
  : Prop :=
  forallb P (trace r) = true.

(** A read asks for at least one sector; the speed is set to 1 only. *)
Definition well_asked (e : event) : bool :=
  match e with
  | EvRead _ n _ => 0 <? n
  | EvSpeed s _ => s =? 1
  | _ => true
  end.

(** A reported cache size lies within the range of the search, and is not
    the one below the ceiling. *)
Definition size_in_range (e : event) : bool :=
  match e with
  | EvReport (MsgCacheSize n) => (1 <=? n) && (n <=? hi) && negb (n =? hi - 1)
  | _ => true
  end.

(** A read between the sector [first] and the sector [lst - first]. *)
Definition in_stretch (first lst : Z) (e : event) : bool :=
  match e with
  | EvRead b n _ => (first <=? b) && (0 <? n) && (b + n <=? lst - first + 1)
  | _ => true
  end.

(** Not the answer of a drive that is gone. *)
Definition no_device_error (e : event) : bool :=
  match e with
  | EvRead _ _ r => negb (r =? -404)
  | _ => true
  end.

(** A computation that goes on unless a read answers -404, and then
    returns -1 at once. *)
Definition stops_on_device_error {D A} (r : step A * D * list event) : Prop :=
  match status r with
  | Next _ => forallb no_device_error (trace r) = true
  | Exit c =>
      c = -1 /\
      exists pre b n,
        trace r = pre ++ [EvRead b n (-404)] /\
        forallb no_device_error pre = true
  end.

(** The number of times a round chose a new test offset. *)
Definition retries (ev : list event) : nat :=
  length (filter (reported MsgReadErrorRetry) ev).

(** A computation hands on what the reads and the speed setting keep. *)
Definition carries {D A} (Q : D -> Prop) (m : M D A) : Prop :=
  forall d, Q d -> Q (drive_of (m d)).

(** ** A drive with a read-ahead buffer

    A synthetic drive that serves every read in full and keeps the
    [c_size] sectors that end at the last sector read, [c_head].  A read
    that starts inside the buffer takes 1 ms, any other read 20 ms. *)

Record cached := {
  c_toc : list (bool * Z * Z);
  c_size : Z;
  c_head : Z;
  c_ms : Z
}.

Definition cached_track (d : cached) (t : Z) : bool * Z * Z :=
  nth (Z.to_nat (t - 1)) (c_toc d) (false, -1, -1).

Definition cached_read (d : cached) (begin sectors : Z) : Z * cached :=
  (sectors,
   {| c_toc := c_toc d; c_size := c_size d;
      c_head := begin + sectors - 1;
      c_ms := if (c_head d - c_size d <? begin) && (begin <=? c_head d)
              then 1 else 20 |}).

#[global] Instance cached_drive : Drive cached := {
  cdda_tracks d := Z.of_nat (length (c_toc d));
  cdda_track_audiop d t := if fst (fst (cached_track d t)) then 1 else 0;
  cdda_track_firstsector d t := snd (fst (cached_track d t));
  cdda_track_lastsector d t := snd (cached_track d t);
  cdda_read := cached_read;
  cdda_milliseconds := c_ms;
  cdda_speed_set d speed := (0, d)
}.

(** The reads of a slow fill: each starts where the sectors served so far
    end and asks for the rest of [current]. *)
Fixpoint refills (offset current sofar : Z) (ev : list event) : bool :=
  match ev with
  | [] => true
  | EvRead b n r :: tl =>
      (b =? offset + sofar) && (n =? current - sofar) &&
      refills offset current (sofar + r) tl
  | _ :: tl => refills offset current sofar tl
  end.

(** The sectors all the reads of a trace handed back. *)
Fixpoint served (ev : list event) : Z :=
  match ev with
  | [] => 0
  | EvRead _ _ r :: tl => r + served tl
  | _ :: tl => served tl
  end.

(** ** A drive that is gone

    A synthetic drive every read of which fails with the result -10. *)

Record dead := { dead_toc : list (bool * Z * Z) }.

Definition dead_track (d : dead) (t : Z) : bool * Z * Z :=
  nth (Z.to_nat (t - 1)) (dead_toc d) (false, -1, -1).

#[global] Instance dead_drive : Drive dead := {
  cdda_tracks d := Z.of_nat (length (dead_toc d));
  cdda_track_audiop d t := if fst (fst (dead_track d t)) then 1 else 0;
  cdda_track_firstsector d t := snd (fst (dead_track d t));
  cdda_track_lastsector d t := snd (dead_track d t);
  cdda_read d begin sectors := (-10, d);
  cdda_milliseconds d := 0;
  cdda_speed_set d speed := (0, d)
}.

(** * Properties *)

Section Monad_facts.

Context {D : Type}.

Lemma bind_unfold {A B} (m : M D A) (f : A -> M D B) d :
  bind m f d =
  match m d with
  | (Next a, d1, e1) =>
      match f a d1 with (r, d2, e2) => (r, d2, e1 ++ e2) end
  | (Exit c, d1, e1) => (Exit c, d1, e1)
  end.
Proof. reflexivity. Qed.

Lemma checks_app a b : checks (a ++ b) = checks a ++ checks b.
Proof.
  induction a as [|e a IH]; [reflexivity|].
  destruct e as [? ? ?|s ms|? ?|?]; simpl; try exact IH.
  destruct s; simpl; try exact IH. now rewrite IH.
Qed.

Lemma behaves_weaken (P Q : event -> bool) {A} (r : step A * D * list event) :
  (forall e, P e = true -> Q e = true) -> behaves P r -> behaves Q r.
Proof.
  intros PQ. unfold behaves. destruct (status r).
  - rewrite !forallb_forall. auto.
  - intros (-> & pre & t & E & F & T). split; [reflexivity|].
    exists pre, t. repeat split; auto.
    rewrite forallb_forall in *. auto.
Qed.

(** Sequencing preserves good behaviour. *)
Lemma behaves_bind (P : event -> bool) {A B} (m : M D A) (f : A -> M D B) d :
  behaves P (m d) ->
  (forall a d1 e1, m d = (Next a, d1, e1) -> behaves P (f a d1)) ->
  behaves P (bind m f d).
Proof.
  intros Hm Hf. rewrite bind_unfold.
  destruct (m d) as [[[a|c] d1] e1] eqn:E; [|exact Hm].
  specialize (Hf a d1 e1 eq_refl).
  destruct (f a d1) as [[r d2] e2].
  unfold behaves, status, trace in *. simpl in *.
  destruct r as [b|c].
  - rewrite forallb_app, Hm, Hf. reflexivity.
  - destruct Hf as (-> & pre & t & -> & F & T). split; [reflexivity|].
    exists (e1 ++ pre), t. rewrite app_assoc, forallb_app, Hm, F. auto.
Qed.

Lemma behaves_ret (P : event -> bool) {A} (a : A) (d : D) :
  behaves P (ret a d).
Proof. reflexivity. Qed.

End Monad_facts.

(** ** The loops stop by themselves

    The loops of the C code that are bounded by a quantity that shrinks are
    written with fuel.  The fuel each is given is enough: more fuel changes
    nothing. *)

Section Fuel.

Context {D : Type} `{Drive D}.
Variable log : bool.

Lemma bind_ext {A B} (m : M D A) (f g : A -> M D B) (d : D) :
  (forall a d1, f a d1 = g a d1) -> bind m f d = bind m g d.
Proof.
  intros E. rewrite !bind_unfold. destruct (m d) as [[[a|c] d1] e1]; auto.
  now rewrite E.
Qed.

(** The slow fill stops by itself within [current - sofar] passes. *)
Lemma slow_fill_fuel fuel more offset current sofar r (d : D) :
  current - sofar <= Z.of_nat fuel ->
  slow_fill log (fuel + more) offset current sofar r d =
  slow_fill log fuel offset current sofar r d.
Proof.
  revert sofar r d. induction fuel as [|fuel IH]; intros sofar r d F.
  - cbn [Nat.add slow_fill]. destruct more; [reflexivity|].
    cbn [slow_fill]. destruct (Z.ltb_spec sofar current); [lia|reflexivity].
  - cbn [Nat.add slow_fill]. destruct (sofar <? current); [|reflexivity].
    apply bind_ext. intros r1 d1. apply bind_ext. intros _ d2.
    destruct (Z.leb_spec r1 0); [reflexivity|]. apply IH. lia.
Qed.

(** The sampling loop stops by itself within [window - sofar] passes. *)
Lemma sample_reads_fuel fuel more offset i sofar samples (d : D) :
  window - sofar <= Z.of_nat fuel ->
  sample_reads (fuel + more) offset i sofar samples d =
  sample_reads fuel offset i sofar samples d.
Proof.
  revert i sofar samples d. induction fuel as [|fuel IH];
    intros i sofar samples d F.
  - cbn [Nat.add sample_reads]. destruct more; [reflexivity|].
    cbn [sample_reads]. destruct (Z.ltb_spec sofar window); [lia|reflexivity].
  - cbn [Nat.add sample_reads]. destruct (sofar <? window); [|reflexivity].
    apply bind_ext. intros r1 d1.
    destruct (Z.leb_spec r1 0); [reflexivity|].
    apply bind_ext. intros x d2. apply IH. lia.
Qed.

(** The search stops by itself when [current] passes [hi]. *)
Lemma search_loop_fuel fuel more lst current offset (d : D) :
  hi + 1 - current <= Z.of_nat fuel ->
  search_loop log (fuel + more) lst current offset d =
  search_loop log fuel lst current offset d.
Proof.
  revert current offset d. induction fuel as [|fuel IH];
    intros current offset d F.
  - cbn [Nat.add search_loop]. destruct more; [reflexivity|].
    cbn [search_loop]. destruct (Z.leb_spec current hi); [lia|reflexivity].
  - cbn [Nat.add search_loop]. destruct (current <=? hi); [|reflexivity].
    apply bind_ext. intros [u o] d1. destruct u; [|reflexivity].
    apply IH. lia.
Qed.

Lemma next_offset_drops p first offset :
  first <= offset -> next_offset p first offset <= offset - 1.
Proof.
  intros L. unfold next_offset. destruct (iterating p); [|lia].
  rewrite Z.quot_div_nonneg by lia.
  pose proof (Z.mul_div_le (offset - first + 44999) 45000 ltac:(lia)). lia.
Qed.

(** The baseline loop stops by itself within [offset - first + 1] passes. *)
Lemma baseline_loop_fuel fuel more first p offset (d : D) :
  offset - first + 1 <= Z.of_nat fuel ->
  baseline_loop (fuel + more) first p offset d =
  baseline_loop fuel first p offset d.
Proof.
  revert p offset d. induction fuel as [|fuel IH]; intros p offset d F.
  - cbn [Nat.add baseline_loop]. destruct more; [reflexivity|].
    cbn [baseline_loop]. destruct (Z.leb_spec first offset); [lia|reflexivity].
  - cbn [Nat.add baseline_loop].
    destruct (Z.leb_spec first offset) as [L|L]; [|reflexivity].
    apply bind_ext. intros p' d1. apply IH.
    pose proof (next_offset_drops p' first offset L). lia.
Qed.

End Fuel.

(** ** Every phase either goes on or aborts with -1 *)

Section Behaviour.

Context {D : Type} `{Drive D}.
Variable log : bool.

Lemma behaves_report m (d : D) :
  probing (EvReport m) = true -> behaves probing (reportC m d).
Proof. intros E. unfold behaves. cbn -[probing]. now rewrite E. Qed.

Lemma behaves_read b n (d : D) : behaves probing (read b n d).
Proof. unfold behaves, read. now destruct (cdda_read d b n). Qed.

Lemma behaves_speed s (d : D) : behaves probing (speed_set s d).
Proof. unfold behaves, speed_set. now destruct (cdda_speed_set d s). Qed.

Lemma behaves_logC_ms (d : D) : behaves probing (logC_ms log d).
Proof. unfold logC_ms. now destruct log. Qed.

Lemma behaves_sample_ms (d : D) : behaves probing (milliseconds InSample d).
Proof. reflexivity. Qed.

Lemma behaves_abort {A} m (d : D) :
  fatal_tail [EvReport m] ->
  behaves probing ((reportC m;; exit (-1) : M D A) d).
Proof.
  intros T. split; [reflexivity|]. exists [], [EvReport m]. auto.
Qed.

Lemma behaves_check {A} (k : Z -> M D A) (d : D) :
  (forall ms, ms <> -1 -> behaves probing (k ms d)) ->
  behaves probing
    ((ms <- milliseconds InCheck;;
      if ms =? -1 then reportC MsgTimingError;; exit (-1) else k ms) d).
Proof.
  intros Hk. rewrite bind_unfold. unfold milliseconds.
  destruct (Z.eqb_spec (cdda_milliseconds d) (-1)) as [E|E].
  - rewrite E. split; [reflexivity|].
    exists [], [EvMs InCheck (-1); EvReport MsgTimingError].
    repeat split. constructor.
  - specialize (Hk _ E). destruct (k (cdda_milliseconds d) d) as [[r d2] e2].
    unfold behaves, status, trace in *; simpl in *.
    assert (N : negb (cdda_milliseconds d =? -1) = true)
      by (apply negb_true_iff, Z.eqb_neq, E).
    destruct r.
    + now rewrite N.
    + destruct Hk as (-> & pre & t & -> & F & T). split; [reflexivity|].
      exists (EvMs InCheck (cdda_milliseconds d) :: pre), t.
      simpl. rewrite N, F. auto.
Qed.

Ltac behave_step :=
  lazymatch goal with
  | |- behaves _ (ret _ _) => apply behaves_ret
  | |- behaves _ (read _ _ _) => apply behaves_read
  | |- behaves _ (speed_set _ _) => apply behaves_speed
  | |- behaves _ (logC_ms _ _) => apply behaves_logC_ms
  | |- behaves _ (milliseconds InSample _) => apply behaves_sample_ms
  | |- behaves _ (reportC _ _) => apply behaves_report; reflexivity
  | |- behaves _ (bind (reportC _) (fun _ => exit _) _) =>
      apply behaves_abort; constructor
  | |- behaves _ (bind (milliseconds InCheck) _ _) =>
      apply behaves_check; intros
  | |- behaves _ (bind _ _ _) => apply behaves_bind; [|intros]
  | |- behaves _ ((if ?c then _ else _) _) => destruct c
  | |- behaves _ ((let '(_, _) := ?p in _) _) => destruct p
  | |- behaves _ ((match ?p with Some _ => _ | None => _ end) _) => destruct p
  end.

Ltac behave := repeat behave_step.

Lemma behaves_slow_fill fuel offset current sofar r (d : D) :
  behaves probing (slow_fill log fuel offset current sofar r d).
Proof.
  revert sofar r d. induction fuel as [|fuel IH]; intros; cbn [slow_fill].
  - behave.
  - behave. apply IH.
Qed.

Lemma behaves_search_reads i current offset (d : D) :
  behaves probing (search_reads log i current offset d).
Proof.
  unfold search_reads. behave; apply behaves_slow_fill.
Qed.

Lemma behaves_search_round left last i current offset (d : D) :
  behaves probing (search_round log left last i current offset d).
Proof.
  revert offset d. induction left as [|left IH]; intros; cbn [search_round];
    behave; try apply behaves_search_reads; try apply IH.
Qed.

Lemma behaves_search_rounds n last i current offset (d : D) :
  behaves probing (search_rounds log n last i current offset d).
Proof.
  revert i offset d. induction n as [|n IH]; intros; cbn [search_rounds];
    behave; try apply behaves_search_round; try apply IH.
Qed.

Lemma behaves_search_loop fuel last current offset (d : D) :
  behaves probing (search_loop log fuel last current offset d).
Proof.
  revert current offset d. induction fuel as [|n IH]; intros;
    cbn [search_loop]; unfold search_probe;
    behave; try apply behaves_search_rounds; try apply IH.
Qed.

Lemma behaves_read_then {A} b n (f : Z -> M D A) (d : D) :
  (forall r d1, cdda_read d b n = (r, d1) ->
     behaves probing (f r d1) \/ (r = -404 /\ f r d1 = (Exit (-1), d1, []))) ->
  behaves probing ((r <- read b n;; f r) d).
Proof.
  intros Hf. rewrite bind_unfold. unfold read.
  destruct (cdda_read d b n) as [r d1]. destruct (Hf r d1 eq_refl) as [B|[-> E]].
  - destruct (f r d1) as [[s d2] e2].
    unfold behaves, status, trace in *; simpl in *. destruct s; [exact B|].
    destruct B as (-> & pre & t & -> & F & T). split; [reflexivity|].
    exists (EvRead b n r :: pre), t. simpl. rewrite F. auto.
  - rewrite E. split; [reflexivity|]. exists [], [EvRead b n (-404)].
    repeat split. constructor.
Qed.

Lemma behaves_sample_reads fuel offset i sofar samples (d : D) :
  behaves probing (sample_reads fuel offset i sofar samples d).
Proof.
  revert i sofar samples d. induction fuel as [|fuel IH]; intros;
    cbn [sample_reads]; [behave|].
  destruct (sofar <? window); [|behave].
  apply behaves_read_then. intros r d1 _.
  destruct (r <=? 0).
  - destruct (Z.eqb_spec r (-404)) as [->|N]; [right; auto|left; behave].
  - left. behave. apply IH.
Qed.

Lemma behaves_sample_offset p offset (d : D) :
  behaves probing (sample_offset p offset d).
Proof.
  unfold sample_offset.
  apply behaves_bind; [behave|intros]. apply behaves_bind; [behave|intros].
  apply behaves_read_then. intros r d2 _.
  destruct (r <? 0).
  - destruct (Z.eqb_spec r (-404)) as [->|N]; [right; auto|left; behave].
  - left. behave. apply behaves_sample_reads.
Qed.

Lemma behaves_baseline first last (d : D) :
  behaves probing (baseline first last d).
Proof.
  unfold baseline. behave.
  generalize (Z.to_nat (last - first - window - 1 - first + 1)).
  generalize {| best := 0; bestcount := 0; iterating := false |}.
  generalize (last - first - window - 1). clear.
  intros offset p fuel. revert offset p d1. induction fuel as [|fuel IH];
    intros; cbn [baseline_loop]; behave;
    try apply behaves_sample_offset; try apply IH.
Qed.

Lemma behaves_contig_round left last current seekoff offset (d : D) :
  behaves probing (contig_round log left last current seekoff offset d).
Proof.
  revert offset d. induction left as [|left IH]; intros; cbn [contig_round];
    behave; try apply IH.
Qed.

Lemma behaves_contig_rounds n last current seekoff offset (d : D) :
  behaves probing (contig_rounds log n last current seekoff offset d).
Proof.
  revert offset d. induction n as [|n IH]; intros; cbn [contig_rounds];
    behave; try apply behaves_contig_round; try apply IH.
Qed.

Lemma behaves_search first last (d : D) :
  behaves probing (search log first last d).
Proof. apply behaves_search_loop. Qed.

End Behaviour.


(** ** The cache size search: rounds and probe lengths *)

Section Search_shape.

Context {D : Type} `{Drive D}.
Variable log : bool.

Lemma logC_ms_run (d : D) : logC_ms log d = (Next tt, d, logq log d).
Proof. unfold logC_ms, logq. now destruct log. Qed.

Lemma trying_logq (d : D) : forallb trying (logq log d) = true.
Proof. unfold logq. now destruct log. Qed.

Lemma trying_checks ev : forallb trying ev = true -> checks ev = [].
Proof.
  induction ev as [|e ev IH]; [reflexivity|]. simpl.
  intros [T F]%andb_true_iff.
  destruct e as [? ? ?|[] ?|? ?|?]; simpl in *; auto; discriminate.
Qed.

Lemma slow_fill_run fuel offset current sofar r (d : D) :
  exists r' d' ev,
    slow_fill log fuel offset current sofar r d = (Next r', d', ev) /\
    forallb trying ev = true.
Proof.
  revert sofar r d. induction fuel as [|fuel IH]; intros; cbn [slow_fill].
  - now exists r, d, [].
  - destruct (sofar <? current); [|now exists r, d, []].
    rewrite bind_unfold. unfold read at 1.
    destruct (cdda_read d (offset + sofar) (current - sofar)) as [r1 d1].
    rewrite bind_unfold, logC_ms_run.
    destruct (r1 <=? 0).
    + do 3 eexists. split; [reflexivity|].
      cbn [forallb app trying andb]. rewrite forallb_app, trying_logq.
      reflexivity.
    + destruct (IH (sofar + r1) r1 d1) as (r' & d' & ev & -> & F).
      do 3 eexists. split; [reflexivity|].
      cbn [forallb app trying andb].
      now rewrite !forallb_app, trying_logq, F.
Qed.

Lemma search_reads_run i current offset (d : D) :
  exists ret1 ret2 d' pre,
    search_reads log i current offset d =
      (Next (ret1, ret2), d', pre ++ EvRead offset 1 ret2 :: logq log d') /\
    forallb trying pre = true.
Proof.
  unfold search_reads. rewrite bind_unfold.
  assert (Fill : exists ret1 d1 e1,
    (if 5 <=? i
     then (if i =? 5
           then reportC (MsgSlowVerify (current - 1));; speed_set 1;; ret tt
           else ret tt);;
          slow_fill log (Z.to_nat current) offset current 0 0
     else r <- read (offset + current - 1) 1;; logC_ms log;; ret r) d =
    (Next ret1, d1, e1) /\ forallb trying e1 = true).
  { destruct (5 <=? i).
    - rewrite bind_unfold. destruct (i =? 5).
      + rewrite bind_unfold. cbn [reportC]. rewrite bind_unfold.
        unfold speed_set. destruct (cdda_speed_set d 1) as [s d0].
        cbn [ret].
        destruct (slow_fill_run (Z.to_nat current) offset current 0 0 d0)
          as (r' & d' & ev & -> & F).
        do 3 eexists. split; [reflexivity|]. simpl. exact F.
      + cbn [ret].
        destruct (slow_fill_run (Z.to_nat current) offset current 0 0 d)
          as (r' & d' & ev & -> & F).
        do 3 eexists. split; [reflexivity|]. exact F.
    - rewrite bind_unfold. unfold read.
      destruct (cdda_read d (offset + current - 1) 1) as [r d1].
      rewrite bind_unfold, logC_ms_run. cbn [ret].
      do 3 eexists. split; [reflexivity|].
      cbn [forallb app trying andb].
      now rewrite forallb_app, trying_logq. }
  destruct Fill as (ret1 & d1 & e1 & -> & F).
  rewrite bind_unfold. unfold read.
  destruct (cdda_read d1 offset 1) as [ret2 d2].
  rewrite bind_unfold, logC_ms_run. cbn [ret].
  exists ret1, ret2, d2, e1. split; [|exact F].
  now rewrite app_nil_r.
Qed.

(** A round that completes ends with the one-sector read at the test offset
    and the timing test of that read; it reports a hit exactly when the
    elapsed time is below 9 ms.  A test offset that was moved leaves room
    for the probe length below the last sector. *)
Lemma search_round_run left last i current offset (d : D) :
  match search_round log left last i current offset d with
  | (Next (under, off'), d', ev) =>
      exists pre ret2,
        ev = pre ++ EvRead off' 1 ret2 :: logq log d' ++
             [EvMs InCheck (cdda_milliseconds d')] /\
        forallb trying pre = true /\ 0 < ret2 /\
        cdda_milliseconds d' <> -1 /\
        under = (cdda_milliseconds d' <? 9) /\
        (off' = offset \/ off' + current <= last)
  | (Exit c, _, _) => c = -1
  end.
Proof.
  revert offset d. induction left as [|left IH]; intros; cbn [search_round];
    rewrite bind_unfold;
    destruct (search_reads_run i current offset d)
      as (ret1 & ret2 & d1 & pre & -> & F);
    destruct ((ret1 <=? 0) || (ret2 <=? 0)) eqn:Fail.
  - reflexivity.
  - apply orb_false_iff in Fail as [_ E2%Z.leb_gt].
    rewrite bind_unfold; unfold milliseconds.
    destruct (Z.eqb_spec (cdda_milliseconds d1) (-1)) as [M|M];
      [reflexivity|]. cbn [ret].
    exists pre, ret2. rewrite app_nil_r, <- app_assoc. cbn [app].
    repeat split; auto.
  - destruct (Z.ltb_spec last (offset + (current + 100) + current)) as [L|L];
      [reflexivity|].
    rewrite bind_unfold. cbn [reportC].
    specialize (IH (offset + (current + 100)) d1).
    destruct (search_round log left last i current
                (offset + (current + 100)) d1) as [[[[u o]|c] d2] e2];
      [|exact IH].
    destruct IH as (pre2 & r2 & -> & F2 & P & M & U & B).
    exists ((pre ++ EvRead offset 1 ret2 :: logq log d1) ++
            EvReport MsgReadErrorRetry :: pre2), r2.
    split; [now rewrite <- !app_assoc|].
    repeat split; auto.
    + rewrite !forallb_app. cbn [forallb trying andb].
      now rewrite F, F2, trying_logq.
    + right. destruct B as [->|B]; lia.
  - apply orb_false_iff in Fail as [_ E2%Z.leb_gt].
    rewrite bind_unfold; unfold milliseconds.
    destruct (Z.eqb_spec (cdda_milliseconds d1) (-1)) as [M|M];
      [reflexivity|]. cbn [ret].
    exists pre, ret2. rewrite app_nil_r, <- app_assoc. cbn [app].
    repeat split; auto.
Qed.

Lemma search_round_checks left last i current offset (d : D) :
  match search_round log left last i current offset d with
  | (Next (under, _), _, ev) =>
      exists ms, checks ev = [ms] /\ ms <> -1 /\ under = (ms <? 9)
  | (Exit c, _, _) => c = -1
  end.
Proof.
  pose proof (search_round_run left last i current offset d) as R.
  destruct (search_round log left last i current offset d)
    as [[[[u o]|c] d'] ev]; [|exact R].
  destruct R as (pre & r2 & -> & F & _ & M & U & _).
  exists (cdda_milliseconds d'). repeat split; auto.
  rewrite checks_app, (trying_checks _ F). cbn [checks app].
  rewrite checks_app, (trying_checks _ (trying_logq d')). reflexivity.
Qed.

Lemma probe_checks_miss n ms under cs :
  (ms <? 9) = false -> probe_checks n under cs ->
  probe_checks (S n) under (ms :: cs).
Proof.
  intros M%Z.ltb_ge. destruct under; cbn [probe_checks].
  - intros (misses & h & -> & F & Hh & N & L).
    exists (ms :: misses), h. repeat split; auto. simpl. lia.
  - intros [L F]. split; [simpl; lia|auto].
Qed.

Lemma search_rounds_checks n last i current offset (d : D) :
  match search_rounds log n last i current offset d with
  | (Next (under, _), _, ev) => probe_checks n under (checks ev)
  | (Exit c, _, _) => c = -1
  end.
Proof.
  revert i offset d. induction n as [|n IH]; intros; cbn [search_rounds].
  - split; [reflexivity|constructor].
  - rewrite bind_unfold.
    pose proof (search_round_checks 10 last i current offset d) as R.
    destruct (search_round log 10 last i current offset d)
      as [[[[u o]|c] d1] e1]; [|exact R].
    destruct R as (ms & C & M & U).
    destruct u.
    + cbn [ret]. rewrite app_nil_r, C.
      exists [], ms. repeat split; auto; [|simpl; lia].
      symmetry in U. now apply Z.ltb_lt in U.
    + specialize (IH (i + 1) o d1).
      destruct (search_rounds log n last (i + 1) current o d1)
        as [[[[u' o']|c] d2] e2]; [|exact IH].
      rewrite checks_app, C. now apply probe_checks_miss.
Qed.

Lemma search_loop_probes fuel last c offset (d : D) :
  hi + 1 - c <= Z.of_nat fuel ->
  match search_loop log fuel last c offset d with
  | (Next (c', under, _), _, ev) => probes c c' under ev
  | (Exit code, _, _) => code = -1
  end.
Proof.
  revert c offset d. induction fuel as [|fuel IH]; intros c offset d Fuel;
    cbn [search_loop].
  - constructor. lia.
  - destruct (Z.leb_spec c hi) as [L|L]; [|now constructor].
    rewrite bind_unfold. unfold search_probe. rewrite bind_unfold.
    cbn [reportC]. rewrite Z.add_simpl_r.
    pose proof (search_rounds_checks 15 last 0 (c + 1) offset d) as R.
    destruct (search_rounds log 15 last 0 (c + 1) offset d)
      as [[[[u o]|code] d1] e1]; [|exact R].
    destruct u.
    + specialize (IH (c + 1) o d1 ltac:(lia)).
      destruct (search_loop log fuel last (c + 1) o d1)
        as [[[[[c' u'] o']|code] d2] e2]; [|exact IH].
      cbn [app]. now apply probes_hit.
    + cbn [ret app]. rewrite app_nil_r. now apply probes_boundary.
Qed.


End Search_shape.



(** ** A drive without a cache *)

Section No_cache.

Context {D : Type} `{Drive D}.
Variable CACHEMODEL_SECTORS : Z.
Variable log : bool.

(** The states of a drive session in which every read succeeds and takes
    at least 9 ms. *)
Variable always_miss : D -> Prop.

Hypothesis read_miss : forall d b n,
  always_miss d -> 0 < n ->
  0 < fst (cdda_read d b n) /\
  always_miss (snd (cdda_read d b n)) /\
  9 <= cdda_milliseconds (snd (cdda_read d b n)).

Hypothesis speed_miss : forall d s,
  always_miss d -> always_miss (snd (cdda_speed_set d s)).










End No_cache.



(** ** The value returned *)

Section Outcome.

Context {D : Type} `{Drive D}.
Variable CACHEMODEL_SECTORS : Z.
Variable log : bool.

Lemma probing_calm l : forallb probing l = true -> forallb calm l = true.
Proof.
  rewrite !forallb_forall. intros P e I. unfold calm. now rewrite (P e I).
Qed.

Lemma conclude_outcome last current offset (d : D) pre :
  forallb probing pre = true ->
  outcome CACHEMODEL_SECTORS
    (code_of (status (conclude CACHEMODEL_SECTORS log last current offset d)))
    (pre ++ trace (conclude CACHEMODEL_SECTORS log last current offset d)).
Proof.
  intros P. unfold conclude.
  destruct (current =? hi); [now apply out_cannot_determine|].
  destruct (Z.ltb_spec 1 current) as [C|C]; [|now apply out_no_cache].
  rewrite bind_unfold. cbn [reportC]. rewrite bind_unfold.
  set (size := current - 1).
  assert (W : exists warn,
    (if CACHEMODEL_SECTORS <? size then reportC MsgExceedsModel;; ret 1
     else ret 0) d =
    (Next warn, d,
     if CACHEMODEL_SECTORS <? size then [EvReport MsgExceedsModel] else []) /\
    warn = if CACHEMODEL_SECTORS <? size then 1 else 0)
    by (destruct (CACHEMODEL_SECTORS <? size); eexists; split; reflexivity).
  destruct W as (warn & -> & Ew).
  rewrite bind_unfold. unfold verify_contiguous.
  rewrite bind_unfold. cbn [reportC]. rewrite bind_unfold.
  pose proof (behaves_contig_rounds log 30 last current (current * 3) offset d)
    as B.
  destruct (contig_rounds log 30 last current (current * 3) offset d)
    as [[[[under o]|c] d1] mid]; unfold behaves in B;
    cbn [status trace fst snd] in B.
  - cbn [fst].
    replace (code_of _) with (if under || (CACHEMODEL_SECTORS <? size)
                              then 1 else 0).
    2: { destruct under; cbn; [reflexivity|]. rewrite Ew.
         now destruct (CACHEMODEL_SECTORS <? size). }
    replace (trace _) with
      (EvReport (MsgCacheSize size) ::
       (if CACHEMODEL_SECTORS <? size then [EvReport MsgExceedsModel] else [])
       ++ EvReport MsgVerifyContiguous :: mid ++
       [EvReport (if under then MsgNonContiguous else MsgContiguous)]).
    2: { destruct under; cbn; rewrite ?app_nil_r; reflexivity. }
    apply out_cache; auto. unfold size. lia.
  - destruct B as (-> & pre2 & t & -> & F & T).
    cbn [status trace fst snd code_of].
    replace (pre ++ _) with
      ((pre ++ EvReport (MsgCacheSize size) ::
        (if CACHEMODEL_SECTORS <? size then [EvReport MsgExceedsModel] else [])
        ++ EvReport MsgVerifyContiguous :: pre2) ++ t).
    2: { cbn [app]. rewrite <- !app_assoc. cbn [app].
         now rewrite <- !app_assoc. }
    apply out_aborted; [|exact T].
    rewrite forallb_app, (probing_calm _ P). cbn [forallb andb].
    rewrite forallb_app. cbn [forallb].
    rewrite (probing_calm _ F).
    now destruct (CACHEMODEL_SECTORS <? size).
Qed.

Lemma outcome_bind {A} (m : M D A) (f : A -> M D Z) (d : D) pre :
  forallb probing pre = true ->
  behaves probing (m d) ->
  (forall a d1 pre',
     forallb probing pre' = true ->
     outcome CACHEMODEL_SECTORS (code_of (status (f a d1)))
       (pre' ++ trace (f a d1))) ->
  outcome CACHEMODEL_SECTORS (code_of (status (bind m f d)))
    (pre ++ trace (bind m f d)).
Proof.
  intros P B Hf. rewrite bind_unfold.
  destruct (m d) as [[[a|c] d1] e1]; unfold behaves in B;
    cbn [status trace fst snd] in B.
  - specialize (Hf a d1 (pre ++ e1)).
    destruct (f a d1) as [[s d2] e2]. cbn [status trace fst snd] in *.
    rewrite app_assoc. apply Hf. now rewrite forallb_app, P, B.
  - destruct B as (-> & p & t & -> & F & T).
    cbn [status trace fst snd code_of]. rewrite app_assoc.
    apply out_aborted; [|exact T].
    now rewrite forallb_app, (probing_calm _ P), (probing_calm _ F).
Qed.

(** Every run of the routine is one of the four kinds of [outcome]. *)
Lemma analyze_outcome (d : D) :
  outcome CACHEMODEL_SECTORS
    (fst (paranoia_analyze_verify CACHEMODEL_SECTORS log d))
    (snd (paranoia_analyze_verify CACHEMODEL_SECTORS log d)).
Proof.
  unfold paranoia_analyze_verify. cbn [fst snd].
  change (trace (analyze_verify CACHEMODEL_SECTORS log d))
    with ([] ++ trace (analyze_verify CACHEMODEL_SECTORS log d)).
  unfold analyze_verify.
  apply outcome_bind; [reflexivity|reflexivity|intros _ d1 pre1 P1].
  apply outcome_bind; [exact P1|reflexivity|intros sp d2 pre2 P2].
  destruct (firstsector sp =? -1).
  - apply (out_aborted _ pre2 [EvReport MsgNoAudio]);
      [now apply probing_calm|constructor].
  - apply outcome_bind; [exact P2|apply behaves_baseline|intros _ d3 pre3 P3].
    apply outcome_bind; [exact P3|reflexivity|intros _ d4 pre4 P4].
    apply outcome_bind; [exact P4|apply behaves_search|].
    intros [[current u] o] d5 pre5 P5.
    now apply conclude_outcome.
Qed.

Lemma last_app_cons (a : list event) b c dflt :
  last (a ++ b :: c) dflt = last (b :: c) dflt.
Proof.
  induction a as [|x a IH]; [reflexivity|].
  cbn [app]. rewrite <- IH. destruct (a ++ b :: c) eqn:E; [|reflexivity].
  now destruct a.
Qed.

Lemma probing_no_warning l :
  forallb probing l = true -> existsb (reported MsgExceedsModel) l = false.
Proof.
  induction l as [|e l IH]; [reflexivity|]. cbn [forallb existsb].
  intros [P F]%andb_true_iff. rewrite (IH F), orb_false_r.
  destruct e as [? ? ?|? ?|? ?|m]; try reflexivity. now destruct m.
Qed.

Lemma cache_trace_snoc (pre : list event) x X v mid e :
  pre ++ x :: X ++ v :: mid ++ [e] = (pre ++ x :: X ++ v :: mid) ++ [e].
Proof.
  rewrite <- app_assoc. cbn [app]. now rewrite <- app_assoc.
Qed.

Lemma outcome_verdict_code c ev :
  outcome CACHEMODEL_SECTORS c ev -> c = verdict_code ev.
Proof.
  intros [pre t P T|pre P|pre P|pre size mid under P Q S]; unfold verdict_code.
  - destruct T; rewrite last_app_cons; reflexivity.
  - now rewrite last_app_cons.
  - now rewrite last_app_cons.
  - rewrite cache_trace_snoc, last_last.
    destruct under; [reflexivity|]. cbn [orb].
    rewrite !existsb_app. cbn [existsb].
    rewrite !existsb_app. cbn [existsb].
    rewrite (probing_no_warning _ P), (probing_no_warning _ Q).
    now destruct (CACHEMODEL_SECTORS <? size).
Qed.

Lemma calm_split l t pre x post :
  forallb calm l = true -> calm x = false ->
  l ++ t = pre ++ x :: post ->
  exists l', t = l' ++ x :: post /\ pre = l ++ l'.
Proof.
  revert pre. induction l as [|e l IH]; intros pre F X E.
  - now exists pre.
  - cbn [forallb] in F. apply andb_true_iff in F as [Ce F].
    destruct pre as [|p pre]; cbn [app] in E; injection E as -> E.
    + congruence.
    + destruct (IH pre F X E) as (l' & -> & ->). now exists l'.
Qed.

Lemma outcome_calm c ev :
  outcome CACHEMODEL_SECTORS c ev ->
  exists l t, ev = l ++ t /\ forallb calm l = true /\
    (t = [] /\ c <> -1 \/ fatal_tail t /\ c = -1).
Proof.
  intros [pre t P T|pre P|pre P|pre size mid under P Q S].
  - exists pre, t. auto.
  - exists (pre ++ [EvReport MsgNoCache]), []. rewrite app_nil_r.
    repeat split; [|left; split; [reflexivity|discriminate]].
    now rewrite forallb_app, (probing_calm _ P).
  - exists (pre ++ [EvReport MsgCannotDetermine]), []. rewrite app_nil_r.
    repeat split; [|left; split; [reflexivity|discriminate]].
    now rewrite forallb_app, (probing_calm _ P).
  - eexists _, []. rewrite app_nil_r. split; [reflexivity|]. split.
    + rewrite forallb_app, (probing_calm _ P). cbn [forallb andb].
      rewrite forallb_app. cbn [forallb].
      rewrite forallb_app, (probing_calm _ Q).
      now destruct (CACHEMODEL_SECTORS <? size), under.
    + left. split; [reflexivity|].
      now destruct (under || (CACHEMODEL_SECTORS <? size)).
Qed.

(** C5 (amended).  The value returned is -1 when the run is aborted (no
    audio, a device error while sampling, too many read errors, a timing
    fault, no readable space left); 0 when no cache is found and also when
    a cache is found that is within the model limit and contiguous; 1 when
    the size cannot be determined and when a cache is found that exceeds
    the model limit or is not contiguous.  The code is all the routine
    returns: the size of a cache that was found is only reported as a
    message, before the contiguity check, whether or not a warning
    follows. *)
Theorem return_code_follows_outcome (d : D) :
  outcome CACHEMODEL_SECTORS
    (fst (paranoia_analyze_verify CACHEMODEL_SECTORS log d))
    (snd (paranoia_analyze_verify CACHEMODEL_SECTORS log d)) /\
  fst (paranoia_analyze_verify CACHEMODEL_SECTORS log d) =
    verdict_code (snd (paranoia_analyze_verify CACHEMODEL_SECTORS log d)).
Proof.
  split; [apply analyze_outcome|].
  apply outcome_verdict_code, analyze_outcome.
Qed.

(** C6 (amended).  If the elapsed-time query of the timing test of a round,
    made after both reads of a round of the search or of the contiguity
    check have succeeded, returns the fault value -1, the routine reports
    the timing error and returns -1 at once: no read follows. *)
Theorem timing_fault_in_test_aborts (d : D) pre post :
  snd (paranoia_analyze_verify CACHEMODEL_SECTORS log d) =
    pre ++ EvMs InCheck (-1) :: post ->
  fst (paranoia_analyze_verify CACHEMODEL_SECTORS log d) = -1 /\
  post = [EvReport MsgTimingError].
Proof.
  intros E.
  destruct (outcome_calm _ _ (analyze_outcome d)) as (l & t & Et & F & C).
  rewrite Et in E.
  destruct (calm_split l t pre (EvMs InCheck (-1)) post F eq_refl E)
    as (l' & -> & _).
  destruct C as [[N _]|[T ->]].
  - now destruct l'.
  - split; [reflexivity|].
    assert (L : forall a k p, [a] = k ++ EvMs InCheck (-1) :: p ->
                              a = EvMs InCheck (-1))
      by (intros a [|x [|y k]] p Q; try discriminate; now injection Q).
    inversion T as [Q|b n Q|Q|Q|Q]; try (apply L in Q; discriminate).
    destruct l' as [|x l']; cbn [app] in Q.
    + now injection Q.
    + injection Q as _ Q. apply L in Q. discriminate.
Qed.

End Outcome.

(** C5 (as stated) fails.  The first round of probe length 1 is a hit (5 ms)
    and every later read a miss: a cache of one sector is found and
    reported, it is within the limit and contiguous, and the routine
    returns 0, the code the specification keeps for the runs that find no
    cache. *)
Lemma cache_found_returns_zero :
  let r := paranoia_analyze_verify 1200 false
             (session mixed_disc [(None, 5); (None, 5)] 20) in
  fst r = 0 /\
  existsb (reported (MsgCacheSize 1)) (snd r) = true /\
  existsb (reported MsgNoCache) (snd r) = false /\
  last (snd r) (EvReport MsgBanner) = EvReport MsgContiguous.
Proof. vm_compute. repeat split. Qed.

(** Witness of C6 (amended): every read takes the fault value; the first
    timing test of the search sees it. *)
Lemma timing_fault_in_test_aborts_witness :
  let r := paranoia_analyze_verify 1200 false (session mixed_disc [] (-1)) in
  snd r =
    [EvReport MsgBanner; EvReport MsgSeekReadTiming; EvReport MsgAnalyzing;
     EvReport (MsgFastSearch 0); EvRead 50000 1 1; EvRead 50000 1 1] ++
    EvMs InCheck (-1) :: [EvReport MsgTimingError] /\
  fst r = -1 /\
  [EvReport MsgTimingError] = [EvReport MsgTimingError].
Proof.
  intros r.
  assert (E : snd r =
    [EvReport MsgBanner; EvReport MsgSeekReadTiming; EvReport MsgAnalyzing;
     EvReport (MsgFastSearch 0); EvRead 50000 1 1; EvRead 50000 1 1] ++
    EvMs InCheck (-1) :: [EvReport MsgTimingError])
    by (vm_compute; reflexivity).
  split; [exact E|].
  exact (timing_fault_in_test_aborts 1200 false
           (session mixed_disc [] (-1)) _ _ E).
Defined.

(** C6 (as stated) fails at the two other places where the elapsed time is
    queried.  On the small disc the baseline takes one set of samples; the
    query after the trigger read returns -1, which is clamped to 0, and the
    reads go on.  With a log sink, the query in the log line of the first
    fill read of the search returns -1; the re-read follows.  Both runs go
    on to the end and return 0. *)
Lemma timing_fault_outside_test_goes_on :
  (let r := paranoia_analyze_verify 1200 false
              (session small_disc [(None, 0); (None, -1)] 20) in
   firstn 7 (snd r) =
     [EvReport MsgBanner; EvReport MsgSeekReadTiming;
      EvReport (MsgTimestamp 0 13 25); EvRead 2001 1 1; EvRead 1000 1 1;
      EvMs InSample (-1); EvRead 1001 999 999] /\
   option_map (existsb is_read) (after_fault InSample (snd r)) = Some true /\
   fst r = 0) /\
  (let r := paranoia_analyze_verify 1200 true
              (session mixed_disc [(None, -1)] 20) in
   firstn 7 (snd r) =
     [EvReport MsgBanner; EvReport MsgSeekReadTiming; EvReport MsgAnalyzing;
      EvReport (MsgFastSearch 0); EvRead 50000 1 1; EvMs InLog (-1);
      EvRead 50000 1 1] /\
   option_map (existsb is_read) (after_fault InLog (snd r)) = Some true /\
   fst r = 0).
Proof. lazy. repeat split. Qed.

(** ** The ceiling of the search

    C4: the code misses its ceiling by one.  The loop runs while
    [current <= hi], so a search that never misses leaves it with
    [current = hi + 1]; the test [current==hi] after the loop is then false
    and the routine reports a cache of 15000 sectors and goes on to the
    contiguity check, which here runs out of space: -1 is returned and
    "cannot determine" is never said.  The test is true instead when the
    boundary is found at probe length 15000 (hits up to length 14999, then
    misses): that run is answered "cannot determine". *)
Lemma ceiling_is_missed_by_one :
  (let d := session short_disc [] 0 in
   let r := paranoia_analyze_verify 1200 false d in
   status (search false 50000 90000 d) = Next (hi + 1, true, 50000) /\
   existsb (reported (MsgCacheSize 15000)) (snd r) = true /\
   existsb (reported MsgCannotDetermine) (snd r) = false /\
   last (snd r) (EvReport MsgBanner) = EvReport MsgOutOfSpace /\
   fst r = -1) /\
  (let d := session mixed_disc (repeat (None, 0) (Z.to_nat 29998)) 20 in
   let r := paranoia_analyze_verify 1200 false d in
   status (search false 50000 99999 d) = Next (hi, false, 50000) /\
   last (snd r) (EvReport MsgBanner) = EvReport MsgCannotDetermine /\
   fst r = 1).
Proof. vm_compute. repeat split. Qed.

(** ** A device error outside the baseline

    C7: only the baseline tests a read result for -404.  In the search the
    first read answers -404: the routine reports a read error, moves the
    test offset by 101 sectors and reads again; the run ends with the
    no-cache verdict and returns 0.  In the contiguity check (after a cache
    of one sector was found) the first far read answers -404: again the
    test offset is moved, and the run ends as contiguous, returning 0. *)
Lemma device_error_is_retried_after_baseline :
  (let r := paranoia_analyze_verify 1200 false
              (session mixed_disc [(Some (-404), 0)] 20) in
   firstn 8 (snd r) =
     [EvReport MsgBanner; EvReport MsgSeekReadTiming; EvReport MsgAnalyzing;
      EvReport (MsgFastSearch 0); EvRead 50000 1 (-404); EvRead 50000 1 1;
      EvReport MsgReadErrorRetry; EvRead 50101 1 1] /\
   last (snd r) (EvReport MsgBanner) = EvReport MsgNoCache /\
   fst r = 0) /\
  (let r := paranoia_analyze_verify 1200 false
              (session mixed_disc
                 ([(None, 5); (None, 5)] ++ repeat (None, 20) 30 ++
                  [(Some (-404), 0)]) 20) in
   firstn 6 (skipn 55 (snd r)) =
     [EvReport (MsgCacheSize 1); EvReport MsgVerifyContiguous;
      EvRead 50006 1 (-404); EvRead 50000 1 1; EvReport MsgReadErrorRetry;
      EvRead 50108 1 1] /\
   last (snd r) (EvReport MsgBanner) = EvReport MsgContiguous /\
   fst r = 0).
Proof. vm_compute. repeat split. Qed.

(** ** The contiguity check and the bound by the last sector *)

Section Contiguity.

Context {D : Type} `{Drive D}.
Variable CACHEMODEL_SECTORS : Z.
Variable log : bool.











End Contiguity.





(** ** The timing statistics of the baseline *)

Section Statistics.

Open Scope R_scope.



Lemma weighted_sum_const c l :
  weighted_sum (fun _ => c) l = IZR (sectors_of l) * c.
Proof.
  induction l as [|s l IH]; cbn [weighted_sum sectors_of]; [simpl; lra|].
  rewrite IH, plus_IZR. lra.
Qed.








End Statistics.

Section Sampling.

Context {D : Type} `{Drive D}.

Lemma sectors_of_app a b : sectors_of (a ++ b) = sectors_of a + sectors_of b.
Proof. induction a as [|s a IH]; cbn [app sectors_of]; lia. Qed.

Lemma clamp_ms_range x : 0 <= clamp_ms x <= 9999.
Proof.
  unfold clamp_ms. destruct (Z.ltb_spec 9999 x); [cbn; lia|].
  destruct (Z.ltb_spec x 0); lia.
Qed.

(** The sample array of a window read from a drive that serves what is
    asked: the trigger sample is one sector, all samples together cover
    the window. *)
Lemma sample_reads_window fuel offset i sofar samples (d d' : D) ev out :
  sample_reads fuel offset i sofar samples d = (Next (Some out), d', ev) ->
  forallb served_as_asked ev = true ->
  window - sofar <= Z.of_nat fuel ->
  i = Z.of_nat (length samples) ->
  sectors_of samples = sofar -> sofar <= window ->
  Forall stored samples ->
  (samples <> [] -> snd (hd (0, 0) samples) = 1) ->
  sectors_of out = window /\ Forall stored out /\
  snd (hd (0, 0) out) = 1.
Proof.
  revert i sofar samples d ev.
  induction fuel as [|fuel IH]; intros i sofar samples d ev Run Asked Fuel
    Ei Es Le St Hd; cbn [sample_reads] in Run.
  - injection Run as <- _ _.
    assert (Z.of_nat 0 = 0) by reflexivity.
    assert (E : sectors_of samples = window) by lia.
    repeat split; auto. apply Hd. intros ->. now cbn in E.
  - destruct (Z.ltb_spec sofar window) as [L|L].
    2: { injection Run as <- _ _.
         assert (E : sectors_of samples = window) by lia.
         repeat split; auto. apply Hd. intros ->. now cbn in E. }
    rewrite bind_unfold in Run. unfold read at 1 in Run.
    destruct (cdda_read d (offset + sofar)
                (if i =? 0 then 1 else window - sofar)) as [r d1].
    destruct (Z.leb_spec r 0) as [R0|R0].
    { destruct (r =? -404); [discriminate|].
      rewrite bind_unfold in Run. cbn in Run. discriminate. }
    rewrite bind_unfold in Run. unfold milliseconds at 1 in Run.
    destruct (sample_reads fuel offset (i + 1) (sofar + r)
                (samples ++ [(clamp_ms (cdda_milliseconds d1), r)]) d1)
      as [[[got|c] d2] e2] eqn:Rest; [|discriminate].
    injection Run as -> -> <-.
    cbn [app forallb served_as_asked andb] in Asked.
    apply andb_true_iff in Asked as [Ar Asked]. apply Z.leb_le in Ar.
    assert (Rr : sofar + r <= window /\ (samples = [] -> r = 1)).
    { revert Ar. destruct (Z.eqb_spec i 0) as [I0|I0]; intros Ar.
      - assert (samples = []) by (destruct samples; [auto|cbn in Ei; lia]).
        subst samples. cbn in Es. unfold window in *.
        split; [|intros _]; lia.
      - change (r <= window - sofar) in Ar. split; [lia|]. intros ->. now cbn in Ei. }
    destruct Rr as [Rw R1].
    apply (IH (i + 1) (sofar + r)
              (samples ++ [(clamp_ms (cdda_milliseconds d1), r)]) d1 e2);
      auto; try lia.
    + rewrite length_app. cbn [length]. lia.
    + rewrite sectors_of_app. cbn [sectors_of snd]. lia.
    + apply Forall_app. split; [exact St|].
      constructor; [|constructor]. split; [apply clamp_ms_range|exact R0].
    + intros _. destruct samples as [|s0 samples']; cbn [app hd snd].
      * now apply R1.
      * apply Hd. discriminate.
Qed.

(** The samples after the trigger of such an array cover [window - 1]
    sectors, the divisor of the raw mean and variance. *)
Lemma sampled_rest_covers_window offset (d d' : D) ev samples :
  sample_reads (Z.to_nat window) offset 0 0 [] d =
    (Next (Some samples), d', ev) ->
  forallb served_as_asked ev = true ->
  Forall (fun s : sample => 0 < snd s) (tl samples) /\
  sectors_of (tl samples) = window - 1.
Proof.
  intros Run Asked.
  destruct (sample_reads_window _ _ _ _ _ _ _ _ _ Run Asked) as (N & St & Hd);
    [unfold window; lia|reflexivity|reflexivity|unfold window; lia
    |constructor|contradiction|].
  destruct samples as [|[x0 r0] rest]; [discriminate|].
  cbn [hd snd tl sectors_of] in *. subst r0.
  inversion St as [|? ? _ St']; subst. split; [|lia].
  apply Forall_impl with (2 := St'). now intros s [_ P].
Qed.


End Sampling.



(** * More of the routine

    Properties of the parts of [paranoia_analyze_verify] around its
    verdicts. *)

(** ** The scan of the tracks and the steps of the baseline *)

Section Scan.

Context {D : Type} `{Drive D}.
Variable CACHEMODEL_SECTORS : Z.
Variable log : bool.


Lemma scan_track_inv (d : D) i s :
  scan_inv s ->
  scan_inv (scan_track d i s) /\
  lastsector s - firstsector s <=
    lastsector (scan_track d i s) - firstsector (scan_track d i s).
Proof.
  unfold scan_inv, scan_track. intros [I R].
  destruct (cdda_track_audiop d (i + 1) =? 1); cbn [firstsector lastsector
    firsttest lasttest].
  - destruct (Z.ltb_spec (lastsector s - firstsector s)
                (cdda_track_lastsector d (i + 1) -
                 (if firsttest s =? -1
                  then cdda_track_firstsector d (i + 1) else firsttest s)));
      cbn [firstsector lastsector firsttest lasttest]; lia.
  - lia.
Qed.

Lemma scan_tracks_inv (d : D) n i s :
  scan_inv s ->
  scan_inv (scan_tracks d n i s) /\
  lastsector s - firstsector s <=
    lastsector (scan_tracks d n i s) - firstsector (scan_tracks d n i s).
Proof.
  revert i s. induction n as [|n IH]; intros i s I; cbn [scan_tracks].
  - split; [exact I|lia].
  - destruct (scan_track_inv d i s I) as [I1 L1].
    destruct (IH (i + 1) _ I1) as [I2 L2]. split; [exact I2|lia].
Qed.

Lemma scan_inv0 : scan_inv span0.
Proof. unfold scan_inv, span0; cbn. lia. Qed.

(** X2.  The stretch of audio the routine works on is never a single
    sector: either no stretch was chosen (both ends are -1) or its first
    sector is below its last sector. *)
Theorem chosen_stretch_spans_sectors (d : D) :
  firstsector (longest_audio d) = -1 /\ lastsector (longest_audio d) = -1 \/
  firstsector (longest_audio d) < lastsector (longest_audio d).
Proof.
  unfold longest_audio.
  now destruct (scan_tracks_inv d (Z.to_nat (cdda_tracks d)) 0 span0 scan_inv0)
    as [[I _] _].
Qed.


Lemma scan_tracks_no_audio (d : D) n i s :
  (forall t, cdda_track_audiop d t <> 1) ->
  firstsector (scan_tracks d n i s) = firstsector s.
Proof.
  intros N. revert i s. induction n as [|n IH]; intros i s;
    cbn [scan_tracks]; [reflexivity|].
  rewrite IH. unfold scan_track.
  destruct (Z.eqb_spec (cdda_track_audiop d (i + 1)) 1) as [E|_];
    [now apply N in E|reflexivity].
Qed.

(** X1.  On a disc without an audio track the routine gives up before it
    touches the drive: it returns -1 and its only messages are the banner
    and the no-audio message. *)
Theorem no_audio_no_drive_call (d : D) :
  (forall t, cdda_track_audiop d t <> 1) ->
  paranoia_analyze_verify CACHEMODEL_SECTORS log d =
    (-1, [EvReport MsgBanner; EvReport MsgNoAudio]) /\
  drive_of (analyze_verify CACHEMODEL_SECTORS log d) = d.
Proof.
  intros N. unfold paranoia_analyze_verify, analyze_verify.
  rewrite bind_unfold. cbn [reportC]. rewrite bind_unfold.
  unfold longest_audio. rewrite (scan_tracks_no_audio d _ 0 span0 N).
  cbn. split; reflexivity.
Qed.

(** X6.  Once the timings have settled the baseline steps to the next
    lower offset that is a whole number of 45000 sectors above the first
    sector: the new offset is below the old one, by at most 45000. *)
Theorem settled_baseline_steps_by_ten_minutes (p : plateau) first offset :
  iterating p = true -> first <= offset ->
  (next_offset p first offset - first) mod 45000 = 0 /\
  offset - 45000 <= next_offset p first offset <= offset - 1.
Proof.
  intros I L. unfold next_offset. rewrite I.
  rewrite Z.quot_div_nonneg by lia.
  set (q := (offset - first + 44999) / 45000).
  pose proof (Z.mul_div_le (offset - first + 44999) 45000 ltac:(lia)) as Lo.
  pose proof (Z.mul_succ_div_gt (offset - first + 44999) 45000 ltac:(lia))
    as Up.
  fold q in Lo, Up. split; [|lia].
  replace (q * 45000 + first - 45000 - first) with ((q - 1) * 45000) by lia.
  apply Z.mod_mul. lia.
Qed.

End Scan.

(** ** What the routine asks of the drive *)

Section Emits.

Context {D : Type} `{Drive D}.
Variable CACHEMODEL_SECTORS : Z.
Variable log : bool.

Lemma emits_bind (P : event -> bool) {A B} (m : M D A) (f : A -> M D B) d :
  emits P (m d) ->
  (forall a d1 e1, m d = (Next a, d1, e1) -> emits P (f a d1)) ->
  emits P (bind m f d).
Proof.
  intros Hm Hf. rewrite bind_unfold.
  destruct (m d) as [[[a|c] d1] e1] eqn:E; [|exact Hm].
  specialize (Hf a d1 e1 eq_refl). destruct (f a d1) as [[r d2] e2].
  unfold emits, trace in *. cbn [snd] in *. now rewrite forallb_app, Hm, Hf.
Qed.

(** A class of events that holds all that the probing emits: reads of at
    least one sector, timing queries, the speed set to 1, and the messages
    other than the findings. *)
Variable P : event -> bool.
Hypothesis P_read : forall b n r, 0 < n -> P (EvRead b n r) = true.
Hypothesis P_ms : forall s ms, P (EvMs s ms) = true.
Hypothesis P_speed : forall r, P (EvSpeed 1 r) = true.
Hypothesis P_report : forall m,
  finding (EvReport m) = false -> P (EvReport m) = true.

Lemma emits_read b n (d : D) : 0 < n -> emits P (read b n d).
Proof.
  intros N. unfold emits, read. destruct (cdda_read d b n).
  cbn. now rewrite P_read.
Qed.

Lemma emits_speed (d : D) : emits P (speed_set 1 d).
Proof.
  unfold emits, speed_set. destruct (cdda_speed_set d 1).
  cbn. now rewrite P_speed.
Qed.

Lemma emits_ms s (d : D) : emits P (milliseconds s d).
Proof. unfold emits, milliseconds. cbn. now rewrite P_ms. Qed.

Lemma emits_logC_ms (d : D) : emits P (logC_ms log d).
Proof. unfold emits, logC_ms. destruct log; cbn; now rewrite ?P_ms. Qed.

Lemma emits_report m (d : D) :
  finding (EvReport m) = false -> emits P (reportC m d).
Proof. intros Pm. unfold emits. cbn [reportC trace snd forallb].
  now rewrite (P_report m Pm). Qed.

Ltac emit_step :=
  lazymatch goal with
  | |- emits _ (ret _ _) => reflexivity
  | |- emits _ (exit _ _) => reflexivity
  | |- emits _ (read _ _ _) => apply emits_read; try lia
  | |- emits _ (speed_set _ _) => apply emits_speed
  | |- emits _ (logC_ms _ _) => apply emits_logC_ms
  | |- emits _ (milliseconds _ _) => apply emits_ms
  | |- emits _ (reportC _ _) =>
      apply emits_report; reflexivity
  | |- emits _ (bind _ _ _) => apply emits_bind; [|intros]
  | |- emits _ ((if ?c <? ?e then _ else _) _) => destruct (Z.ltb_spec c e)
  | |- emits _ ((if ?c then _ else _) _) => destruct c
  | |- emits _ ((let '(_, _) := ?p in _) _) => destruct p
  | |- emits _ ((match ?p with Some _ => _ | None => _ end) _) => destruct p
  | |- emits _ ((match ?p with O => _ | S _ => _ end) _) => destruct p
  end.

Ltac emit := repeat emit_step.

Lemma emits_slow_fill fuel offset current sofar r (d : D) :
  emits P (slow_fill log fuel offset current sofar r d).
Proof.
  revert sofar r d. induction fuel as [|fuel IH]; intros; cbn [slow_fill];
    emit. apply IH.
Qed.

Lemma emits_search_round left lst i current offset (d : D) :
  emits P (search_round log left lst i current offset d).
Proof.
  revert offset d. induction left as [|left IH]; intros; cbn [search_round];
    unfold search_reads; emit; try apply emits_slow_fill; try apply IH.
Qed.

Lemma emits_search_rounds n lst i current offset (d : D) :
  emits P (search_rounds log n lst i current offset d).
Proof.
  revert i offset d. induction n as [|n IH]; intros; cbn [search_rounds];
    emit; try apply emits_search_round; try apply IH.
Qed.

Lemma emits_search first lst (d : D) : emits P (search log first lst d).
Proof.
  unfold search. generalize (Z.to_nat (hi + 1)) 0 first. intros fuel.
  revert d. induction fuel as [|fuel IH]; intros; cbn [search_loop];
    unfold search_probe; emit; try apply emits_search_rounds; try apply IH.
Qed.

Lemma emits_sample_reads fuel offset i sofar samples (d : D) :
  emits P (sample_reads fuel offset i sofar samples d).
Proof.
  revert i sofar samples d. induction fuel as [|fuel IH]; intros;
    cbn [sample_reads]; emit; try apply IH.
  unfold window in *. destruct (i =? 0); lia.
Qed.

Lemma emits_baseline_loop fuel first p offset (d : D) :
  emits P (baseline_loop fuel first p offset d).
Proof.
  revert offset p d. induction fuel as [|fuel IH];
    intros; cbn [baseline_loop]; unfold sample_offset; emit;
    try apply emits_sample_reads; try apply IH.
Qed.

Lemma emits_baseline first lst (d : D) : emits P (baseline first lst d).
Proof. unfold baseline. emit. apply emits_baseline_loop. Qed.

Lemma emits_contig_rounds n lst current seekoff offset (d : D) :
  emits P (contig_rounds log n lst current seekoff offset d).
Proof.
  revert offset d. induction n as [|n IH]; intros; cbn [contig_rounds];
    emit; try apply IH.
  generalize 10%nat. intros left. revert offset d.
  induction left as [|left IHl]; intros; cbn [contig_round]; emit;
    try apply IHl.
Qed.

(** The routine, given the class holds what the conclusion emits. *)
Lemma emits_analyze (d : D) :
  (forall first lst d0 current u o d1 e1,
     search log first lst d0 = (Next (current, u, o), d1, e1) ->
     emits P (conclude CACHEMODEL_SECTORS log lst current o d1)) ->
  emits P (analyze_verify CACHEMODEL_SECTORS log d).
Proof.
  intros C. unfold analyze_verify.
  apply emits_bind; [emit|intros].
  apply emits_bind; [reflexivity|intros sp d2 e2 _].
  destruct (firstsector sp =? -1); [emit|].
  apply emits_bind; [apply emits_baseline|intros].
  apply emits_bind; [emit|intros].
  apply emits_bind; [apply emits_search|].
  intros [[current u] o] d5 e5 E. now apply C with (1 := E).
Qed.

Lemma emits_conclude lst current offset (d : D) :
  (forall m, P (EvReport m) = true) ->
  emits P (conclude CACHEMODEL_SECTORS log lst current offset d).
Proof.
  intros Any.
  assert (R : forall m (d0 : D), emits P (reportC m d0))
    by (intros; unfold emits; cbn; now rewrite Any).
  unfold conclude, verify_contiguous.
  repeat first
    [ apply R
    | apply emits_contig_rounds
    | match goal with
      | |- emits _ (ret _ _) => reflexivity
      | |- emits _ (exit _ _) => reflexivity
      | |- emits _ (bind _ _ _) => apply emits_bind; [|intros]
      | |- emits _ ((if ?c then _ else _) _) => destruct c
      end ].
Qed.

End Emits.

Section Routine_events.

Context {D : Type} `{Drive D}.
Variable CACHEMODEL_SECTORS : Z.
Variable log : bool.

(** X7.  Whatever the drive does, every read the routine issues asks for at
    least one sector, and the only speed it ever sets is 1: the speed
    lowered for the slow verification is not restored. *)
Theorem reads_ask_for_sectors_and_speed_stays_low (d : D) :
  forallb well_asked (snd (paranoia_analyze_verify CACHEMODEL_SECTORS log d))
    = true.
Proof.
  assert (Pr : forall b n r, 0 < n -> well_asked (EvRead b n r) = true)
    by (intros; now apply Z.ltb_lt).
  apply (emits_analyze CACHEMODEL_SECTORS log well_asked); auto.
  intros. apply emits_conclude; auto.
Qed.

Lemma probes_range c c' under ev :
  probes c c' under ev ->
  hi < c /\ c' = c \/ c <= hi /\ c < c' <= hi + 1.
Proof. induction 1; lia. Qed.

(** X13.  A cache size the routine reports is at least 1 and at most
    15000, and it is never 14999: the search that stops at probe length
    15000 is answered "cannot determine". *)
Theorem reported_size_in_range (d : D) :
  forallb size_in_range
    (snd (paranoia_analyze_verify CACHEMODEL_SECTORS log d)) = true.
Proof.
  assert (Pr : forall m, finding (EvReport m) = false ->
                         size_in_range (EvReport m) = true)
    by (intros []; cbn; auto; discriminate).
  apply (emits_analyze CACHEMODEL_SECTORS log size_in_range); auto.
  intros first lst d0 current u o d1 e1 E.
  pose proof (search_loop_probes log (Z.to_nat (hi + 1)) lst 0 first d0
                ltac:(unfold hi; lia)) as R.
  unfold search in E. rewrite E in R. apply probes_range in R.
  unfold conclude, verify_contiguous.
  destruct (Z.eqb_spec current hi) as [Eh|Nh]; [reflexivity|].
  apply emits_bind.
  - destruct (Z.ltb_spec 1 current); [|reflexivity].
    unfold emits. cbn [reportC trace snd forallb size_in_range].
    rewrite andb_true_r, !andb_true_iff, negb_true_iff.
    repeat split; [apply Z.leb_le|apply Z.leb_le|apply Z.eqb_neq];
      unfold hi in *; lia.
  - intros. apply emits_bind.
    + destruct (CACHEMODEL_SECTORS <? current - 1); reflexivity.
    + intros. apply emits_bind; [|reflexivity].
      apply emits_bind; [reflexivity|intros].
      apply emits_bind; [now apply emits_contig_rounds|intros r ? ? _].
      destruct (fst r); reflexivity.
Qed.

End Routine_events.

(** ** The baseline *)

Section Baseline_facts.

Context {D : Type} `{Drive D}.
Variable log : bool.

Lemma in_stretch_read first lst b n (d : D) :
  first <= b -> 0 < n -> b + n <= lst - first + 1 ->
  emits (in_stretch first lst) (read b n d).
Proof.
  intros B N E. unfold emits, read. destruct (cdda_read d b n) as [r d'].
  cbn. rewrite andb_true_r, !andb_true_iff.
  repeat split; [apply Z.leb_le|apply Z.ltb_lt|apply Z.leb_le]; lia.
Qed.

Lemma in_stretch_sample_reads first lst fuel offset i sofar samples (d : D) :
  first <= offset -> offset <= lst - first - window - 1 -> 0 <= sofar ->
  emits (in_stretch first lst) (sample_reads fuel offset i sofar samples d).
Proof.
  intros Lo Up. revert i sofar samples d.
  induction fuel as [|fuel IH]; intros i sofar samples d S0;
    cbn [sample_reads]; [reflexivity|].
  destruct (Z.ltb_spec sofar window) as [L|L]; [|reflexivity].
  rewrite bind_unfold.
  pose proof (in_stretch_read first lst (offset + sofar)
                (if i =? 0 then 1 else window - sofar) d) as R.
  unfold emits, read in *.
  destruct (cdda_read d (offset + sofar)
              (if i =? 0 then 1 else window - sofar)) as [r d1].
  cbn [trace snd] in R.
  assert (R' : forallb (in_stretch first lst)
                 [EvRead (offset + sofar)
                    (if i =? 0 then 1 else window - sofar) r] = true)
    by (apply R; destruct (i =? 0); lia).
  destruct (Z.leb_spec r 0).
  - destruct (r =? -404); cbn [exit bind reportC ret trace snd app];
      rewrite ?app_nil_r; exact R'.
  - rewrite bind_unfold. unfold milliseconds.
    specialize (IH (i + 1) (sofar + r)
                  (samples ++ [(clamp_ms (cdda_milliseconds d1), r)]) d1
                  ltac:(lia)).
    destruct (sample_reads fuel offset (i + 1) (sofar + r)
                (samples ++ [(clamp_ms (cdda_milliseconds d1), r)]) d1)
      as [[s d2] e2].
    cbn [trace snd app forallb] in *.
    apply andb_true_iff in R' as [R' _]. rewrite R'. exact IH.
Qed.

Lemma in_stretch_baseline_loop first lst fuel p offset (d : D) :
  offset <= lst - first - window - 1 ->
  emits (in_stretch first lst) (baseline_loop fuel first p offset d).
Proof.
  revert p offset d. induction fuel as [|fuel IH]; intros p offset d Up;
    cbn [baseline_loop]; [reflexivity|].
  destruct (Z.leb_spec first offset) as [Lo|Lo]; [|reflexivity].
  apply emits_bind.
  - unfold sample_offset.
    apply emits_bind; [destruct (iterating p); reflexivity|intros].
    apply emits_bind; [reflexivity|intros].
    apply emits_bind;
      [apply in_stretch_read; unfold window in *; lia|intros r ? ? _].
    destruct (r <? 0).
    + destruct (r =? -404); [reflexivity|].
      apply emits_bind; [reflexivity|intros; reflexivity].
    + apply emits_bind;
        [apply in_stretch_sample_reads; auto; lia|intros got ? ? _].
      destruct got; reflexivity.
  - intros p' d1 e1 _. apply IH.
    pose proof (next_offset_drops p' first offset Lo). lia.
Qed.

(** X4.  Every read of the baseline asks for at least one sector, starts
    at or above the first sector of the stretch and ends at or below the
    sector [last - first], which is not past the last sector when sector
    numbers are not negative. *)
Theorem baseline_reads_inside_stretch first lst (d : D) :
  forallb (in_stretch first lst) (trace (baseline first lst d)) = true.
Proof.
  unfold baseline.
  apply emits_bind; [reflexivity|intros].
  apply in_stretch_baseline_loop. lia.
Qed.

Lemma stops_bind {A B} (m : M D A) (f : A -> M D B) (d : D) :
  stops_on_device_error (m d) ->
  (forall a d1, stops_on_device_error (f a d1)) ->
  stops_on_device_error (bind m f d).
Proof.
  intros Hm Hf. rewrite bind_unfold.
  destruct (m d) as [[[a|c] d1] e1]; [|exact Hm].
  specialize (Hf a d1). destruct (f a d1) as [[r d2] e2].
  unfold stops_on_device_error, status, trace in *. cbn [fst snd] in *.
  destruct r as [b|c].
  - now rewrite forallb_app, Hm, Hf.
  - destruct Hf as (-> & pre & b & n & -> & F). split; [reflexivity|].
    exists (e1 ++ pre), b, n. now rewrite app_assoc, forallb_app, Hm, F.
Qed.

Lemma stops_read_then {A} b n (f : Z -> M D A) (d : D) :
  (forall d1, f (-404) d1 = (Exit (-1), d1, [])) ->
  (forall r d1, r <> -404 -> stops_on_device_error (f r d1)) ->
  stops_on_device_error ((r <- read b n;; f r) d).
Proof.
  intros Dead Live. rewrite bind_unfold. unfold read.
  destruct (cdda_read d b n) as [r d1].
  destruct (Z.eq_dec r (-404)) as [->|N].
  - rewrite Dead. split; [reflexivity|]. now exists [], b, n.
  - specialize (Live r d1 N). destruct (f r d1) as [[s d2] e2].
    unfold stops_on_device_error, status, trace in *. cbn [fst snd app] in *.
    assert (Nr : negb (r =? -404) = true)
      by (apply negb_true_iff, Z.eqb_neq, N).
    destruct s as [a|c].
    + cbn [forallb no_device_error]. now rewrite Nr, Live.
    + destruct Live as (-> & pre & b' & n' & -> & F). split; [reflexivity|].
      exists (EvRead b n r :: pre), b', n'. cbn [forallb no_device_error app].
      now rewrite Nr, F.
Qed.

Lemma stops_sample_reads fuel offset i sofar samples (d : D) :
  stops_on_device_error (sample_reads fuel offset i sofar samples d).
Proof.
  revert i sofar samples d. induction fuel as [|fuel IH]; intros;
    cbn [sample_reads]; [reflexivity|].
  destruct (sofar <? window); [|reflexivity].
  apply stops_read_then; [reflexivity|intros r d1 N].
  destruct (r <=? 0).
  - apply Z.eqb_neq in N. rewrite N.
    apply stops_bind; [reflexivity|intros; reflexivity].
  - apply stops_bind; [reflexivity|intros; apply IH].
Qed.

Lemma stops_baseline_loop fuel first p offset (d : D) :
  stops_on_device_error (baseline_loop fuel first p offset d).
Proof.
  revert p offset d. induction fuel as [|fuel IH]; intros;
    cbn [baseline_loop]; [reflexivity|].
  destruct (first <=? offset); [|reflexivity].
  apply stops_bind; [|intros; apply IH].
  unfold sample_offset.
  apply stops_bind; [destruct (iterating p); reflexivity|intros].
  apply stops_bind; [reflexivity|intros].
  apply stops_read_then; [reflexivity|intros r d2 N].
  destruct (r <? 0).
  - apply Z.eqb_neq in N. rewrite N.
    apply stops_bind; [reflexivity|intros; reflexivity].
  - apply stops_bind; [apply stops_sample_reads|intros got ?].
    destruct got; reflexivity.
Qed.

(** X8.  The baseline gives up exactly when a read answers -404: it
    returns -1 right after that read; a failed read with any other answer
    only skips the offset, and the baseline goes on to the search. *)
Theorem baseline_stops_on_device_error_only first lst (d : D) :
  stops_on_device_error (baseline first lst d).
Proof.
  unfold baseline. apply stops_bind; [reflexivity|intros].
  apply stops_baseline_loop.
Qed.

Lemma sample_reads_array fuel offset i sofar samples (d d' : D) ev out :
  sample_reads fuel offset i sofar samples d = (Next (Some out), d', ev) ->
  window - sofar <= Z.of_nat fuel ->
  sectors_of samples = sofar ->
  Z.of_nat (length samples) <= sofar ->
  (length samples <= Z.to_nat window)%nat ->
  Forall stored samples ->
  (length out <= Z.to_nat window)%nat /\ Forall stored out /\
  window <= sectors_of out.
Proof.
  revert i sofar samples d ev.
  induction fuel as [|fuel IH]; intros i sofar samples d ev Run Fuel Es Len
    Cap St; cbn [sample_reads] in Run.
  - injection Run as <- _ _. repeat split; auto. lia.
  - destruct (Z.ltb_spec sofar window) as [L|L].
    2: { injection Run as <- _ _. repeat split; auto. lia. }
    rewrite bind_unfold in Run. unfold read at 1 in Run.
    destruct (cdda_read d (offset + sofar)
                (if i =? 0 then 1 else window - sofar)) as [r d1].
    destruct (Z.leb_spec r 0) as [R0|R0].
    { destruct (r =? -404); [discriminate|].
      rewrite bind_unfold in Run. cbn in Run. discriminate. }
    rewrite bind_unfold in Run. unfold milliseconds at 1 in Run.
    destruct (sample_reads fuel offset (i + 1) (sofar + r)
                (samples ++ [(clamp_ms (cdda_milliseconds d1), r)]) d1)
      as [[[got|c] d2] e2] eqn:Rest; [|discriminate].
    injection Run as -> -> <-.
    apply (IH (i + 1) (sofar + r)
              (samples ++ [(clamp_ms (cdda_milliseconds d1), r)]) d1 e2);
      auto; try lia.
    + rewrite sectors_of_app. cbn [sectors_of snd]. lia.
    + rewrite length_app. cbn [length]. lia.
    + rewrite length_app. cbn [length]. unfold window in *. lia.
    + apply Forall_app. split; [exact St|].
      constructor; [|constructor]. split; [apply clamp_ms_range|exact R0].
Qed.

(** X5.  Whatever the drive hands back, a window that is sampled to its
    end fills at most 1000 entries of the arrays [latency] and [sectors];
    every latency stored lies within 0..9999 ms, every sector count stored
    is positive, and the counts add up to the window at least. *)
Theorem sample_arrays_hold_the_window offset (d d' : D) ev samples :
  sample_reads (Z.to_nat window) offset 0 0 [] d =
    (Next (Some samples), d', ev) ->
  (length samples <= 1000)%nat /\ Forall stored samples /\
  window <= sectors_of samples.
Proof.
  intros Run.
  apply (sample_reads_array _ _ _ _ _ _ _ _ _ Run); try reflexivity;
    try (unfold window; cbn; lia). constructor.
Qed.

End Baseline_facts.

(** ** New test offsets *)

Section Relocation.

Context {D : Type} `{Drive D}.
Variable log : bool.

Lemma retries_app a b : retries (a ++ b) = (retries a + retries b)%nat.
Proof. unfold retries. now rewrite filter_app, length_app. Qed.

Lemma retries_logq (d : D) : retries (logq log d) = O.
Proof. unfold logq. now destruct log. Qed.

Lemma retries_slow_fill fuel offset current sofar r (d : D) :
  retries (trace (slow_fill log fuel offset current sofar r d)) = O.
Proof.
  revert sofar r d. induction fuel as [|fuel IH]; intros; cbn [slow_fill];
    [reflexivity|].
  destruct (sofar <? current); [|reflexivity].
  rewrite bind_unfold. unfold read at 1.
  destruct (cdda_read d (offset + sofar) (current - sofar)) as [r1 d1].
  rewrite bind_unfold, logC_ms_run.
  destruct (r1 <=? 0).
  - cbn [ret trace snd app]. rewrite app_nil_r.
    change (EvRead ?b ?n ?x :: ?l) with ([EvRead b n x] ++ l).
    now rewrite retries_app, retries_logq.
  - specialize (IH (sofar + r1) r1 d1).
    destruct (slow_fill log fuel offset current (sofar + r1) r1 d1)
      as [[s d2] e2].
    cbn [trace snd app] in *.
    change (EvRead ?b ?n ?x :: ?l) with ([EvRead b n x] ++ l).
    now rewrite !retries_app, retries_logq, IH.
Qed.

Lemma retries_search_reads i current offset (d : D) :
  retries (trace (search_reads log i current offset d)) = O.
Proof.
  destruct (search_reads_run log i current offset d)
    as (ret1 & ret2 & d' & pre & E & F).
  pose proof E as E'. unfold search_reads in E'.
  rewrite bind_unfold in E'.
  assert (Fill : retries (trace
    ((if 5 <=? i
      then (if i =? 5
            then reportC (MsgSlowVerify (current - 1));; speed_set 1;; ret tt
            else ret tt);;
           slow_fill log (Z.to_nat current) offset current 0 0
      else r <- read (offset + current - 1) 1;; logC_ms log;; ret r) d)) = O).
  { destruct (5 <=? i).
    - rewrite bind_unfold. destruct (i =? 5).
      + rewrite bind_unfold. cbn [reportC]. rewrite bind_unfold.
        unfold speed_set. destruct (cdda_speed_set d 1) as [s d0].
        cbn [ret].
        pose proof (retries_slow_fill (Z.to_nat current) offset current 0 0 d0)
          as R.
        destruct (slow_fill log (Z.to_nat current) offset current 0 0 d0)
          as [[s' d1] e1].
        cbn [trace snd app] in *. exact R.
      + cbn [ret].
        pose proof (retries_slow_fill (Z.to_nat current) offset current 0 0 d)
          as R.
        destruct (slow_fill log (Z.to_nat current) offset current 0 0 d)
          as [[s' d1] e1].
        cbn [trace snd app] in *. exact R.
    - rewrite bind_unfold. unfold read.
      destruct (cdda_read d (offset + current - 1) 1) as [r d1].
      rewrite bind_unfold, logC_ms_run. cbn [ret trace snd app].
      rewrite app_nil_r.
      change (EvRead ?b ?n ?x :: ?l) with ([EvRead b n x] ++ l).
      now rewrite retries_app, retries_logq. }
  destruct ((if 5 <=? i
      then (if i =? 5
            then reportC (MsgSlowVerify (current - 1));; speed_set 1;; ret tt
            else ret tt);;
           slow_fill log (Z.to_nat current) offset current 0 0
      else r <- read (offset + current - 1) 1;; logC_ms log;; ret r) d)
    as [[[r1|c] d1] e1]; [|discriminate].
  rewrite bind_unfold in E'. unfold read in E'.
  destruct (cdda_read d1 offset 1) as [r2 d2].
  rewrite bind_unfold, logC_ms_run in E'. cbn [ret] in E'.
  rewrite E. injection E' as _ _ _ <-. cbn [trace snd] in *.
  rewrite app_nil_r, retries_app, Fill.
  change (EvRead ?b ?n ?x :: ?l) with ([EvRead b n x] ++ l).
  now rewrite retries_app, retries_logq.
Qed.

Lemma search_round_moves left lst i current offset (d : D) :
  match search_round log left lst i current offset d with
  | (Next (_, off'), _, ev) =>
      (retries ev <= left)%nat /\
      off' = offset + Z.of_nat (retries ev) * (current + 100)
  | (Exit c, _, ev) => c = -1 /\ (retries ev <= left)%nat
  end.
Proof.
  revert offset d. induction left as [|left IH]; intros; cbn [search_round];
    rewrite bind_unfold;
    pose proof (retries_search_reads i current offset d) as R;
    destruct (search_reads log i current offset d)
      as [[[[ret1 ret2]|c] d1] e1] eqn:E;
    try (pose proof (search_reads_run log i current offset d)
           as (? & ? & ? & ? & E' & _); rewrite E in E'; discriminate);
    cbn [trace snd] in R;
    destruct ((ret1 <=? 0) || (ret2 <=? 0)).
  - cbn. rewrite retries_app, R. split; [reflexivity|cbn; lia].
  - rewrite bind_unfold. unfold milliseconds.
    destruct (cdda_milliseconds d1 =? -1); cbn [ret reportC exit bind];
      rewrite ?retries_app, R; cbn; split; auto; lia.
  - destruct (lst <? offset + (current + 100) + current).
    + cbn. rewrite retries_app, R. split; [reflexivity|cbn; lia].
    + rewrite bind_unfold. cbn [reportC].
      specialize (IH (offset + (current + 100)) d1).
      destruct (search_round log left lst i current
                  (offset + (current + 100)) d1) as [[[[u o]|c] d2] e2];
        rewrite retries_app, R;
        change (EvReport MsgReadErrorRetry :: e2)
          with ([EvReport MsgReadErrorRetry] ++ e2);
        rewrite retries_app; cbn [retries filter reported message_eqb length
                                  Nat.add].
      * destruct IH as [L ->]. split; [lia|]. lia.
      * destruct IH as [-> L]. split; [reflexivity|lia].
  - rewrite bind_unfold. unfold milliseconds.
    destruct (cdda_milliseconds d1 =? -1); cbn [ret reportC exit bind];
      rewrite ?retries_app, R; cbn; split; auto; lia.
Qed.

(** X14.  A round of the search that completes, or gives up, has moved the
    test offset forward by [current + 100] sectors once for every read
    error it reported, at most ten times: the eleventh failed attempt ends
    the run. *)
Theorem round_moves_offset_per_retry lst i current offset (d : D) :
  match search_round log 10 lst i current offset d with
  | (Next (_, off'), _, ev) =>
      (retries ev <= 10)%nat /\
      off' = offset + Z.of_nat (retries ev) * (current + 100)
  | (Exit c, _, ev) => c = -1 /\ (retries ev <= 10)%nat
  end.
Proof. apply search_round_moves. Qed.

Lemma search_rounds_forward n lst i current offset (d : D) :
  0 <= current + 100 ->
  match search_rounds log n lst i current offset d with
  | (Next (_, off'), _, _) => offset <= off'
  | (Exit c, _, _) => c = -1
  end.
Proof.
  intros C. revert i offset d. induction n as [|n IH]; intros;
    cbn [search_rounds]; [cbn; lia|].
  rewrite bind_unfold.
  pose proof (search_round_moves 10 lst i current offset d) as R.
  destruct (search_round log 10 lst i current offset d)
    as [[[[u o]|c] d1] e1]; [|now destruct R].
  destruct R as [_ ->]. destruct u; [cbn; nia|].
  specialize (IH (i + 1) (offset + Z.of_nat (retries e1) * (current + 100)) d1).
  destruct (search_rounds log n lst (i + 1) current
              (offset + Z.of_nat (retries e1) * (current + 100)) d1)
    as [[[[u' o']|c] d2] e2]; [nia|exact IH].
Qed.

Lemma search_loop_forward fuel lst c offset (d : D) :
  0 <= c ->
  match search_loop log fuel lst c offset d with
  | (Next (_, _, off'), _, _) => offset <= off'
  | (Exit code, _, _) => code = -1
  end.
Proof.
  revert c offset d. induction fuel as [|fuel IH]; intros c offset d C;
    cbn [search_loop]; [cbn; lia|].
  destruct (c <=? hi); [|cbn; lia].
  rewrite bind_unfold. unfold search_probe. rewrite bind_unfold.
  cbn [reportC].
  pose proof (search_rounds_forward 15 lst 0 (c + 1) offset d ltac:(lia)) as R.
  destruct (search_rounds log 15 lst 0 (c + 1) offset d)
    as [[[[u o]|code] d1] e1]; [|exact R].
  destruct u; [|cbn; exact R].
  specialize (IH (c + 1) o d1 ltac:(lia)).
  destruct (search_loop log fuel lst (c + 1) o d1)
    as [[[[[c' u'] o']|code] d2] e2]; [lia|exact IH].
Qed.

Lemma probes_under c c' ev : probes c c' true ev -> hi < c'.
Proof.
  intros P. remember true as u eqn:U. induction P; auto; discriminate.
Qed.

(** X16.  The search ends with a probe length between 1 and 15001; it
    leaves the loop with the hit flag still set only at 15001; and the test
    offset it hands on is never below the first sector it started from. *)
Theorem search_ends_in_range first lst (d : D) :
  match search log first lst d with
  | (Next (current, under, offset), _, _) =>
      1 <= current <= hi + 1 /\
      (under = true -> current = hi + 1) /\
      first <= offset
  | (Exit c, _, _) => c = -1
  end.
Proof.
  unfold search.
  pose proof (search_loop_probes log (Z.to_nat (hi + 1)) lst 0 first d
                ltac:(unfold hi; lia)) as P.
  pose proof (search_loop_forward (Z.to_nat (hi + 1)) lst 0 first d
                ltac:(lia)) as F.
  destruct (search_loop log (Z.to_nat (hi + 1)) lst 0 first d)
    as [[[[[c u] o]|code] d1] e1]; [|exact P].
  pose proof (probes_range _ _ _ _ P) as R. unfold hi in *.
  repeat split; try lia.
  intros ->. apply probes_under in P. unfold hi in P. lia.
Qed.

End Relocation.

(** ** What the routine keeps of the drive *)

Section Carries.

Context {D : Type} `{Drive D}.
Variable log : bool.

(** A property of the drive that reading and setting the speed keep. *)
Variable Q : D -> Prop.
Hypothesis read_keeps : forall d b n, Q d -> Q (snd (cdda_read d b n)).
Hypothesis speed_keeps : forall d s, Q d -> Q (snd (cdda_speed_set d s)).

Lemma carries_bind {A B} (m : M D A) (f : A -> M D B) :
  carries Q m -> (forall a, carries Q (f a)) -> carries Q (bind m f).
Proof.
  intros Hm Hf d Qd. rewrite bind_unfold. specialize (Hm d Qd).
  destruct (m d) as [[[a|c] d1] e1]; [|exact Hm].
  specialize (Hf a d1 Hm). now destruct (f a d1) as [[r d2] e2].
Qed.

Lemma carries_read b n : carries Q (read b n).
Proof.
  intros d Qd. unfold read. pose proof (read_keeps d b n Qd).
  now destruct (cdda_read d b n).
Qed.

Lemma carries_speed s : carries Q (speed_set s).
Proof.
  intros d Qd. unfold speed_set. pose proof (speed_keeps d s Qd).
  now destruct (cdda_speed_set d s).
Qed.

Lemma carries_pure {A} (m : M D A) :
  (forall d, drive_of (m d) = d) -> carries Q m.
Proof. intros E d Qd. now rewrite E. Qed.

Ltac carry_step :=
  lazymatch goal with
  | |- carries _ (ret _) => apply carries_pure; reflexivity
  | |- carries _ (exit _) => apply carries_pure; reflexivity
  | |- carries _ (reportC _) => apply carries_pure; reflexivity
  | |- carries _ (milliseconds _) => apply carries_pure; reflexivity
  | |- carries _ (logC_ms _) =>
      apply carries_pure; unfold logC_ms; destruct log; reflexivity
  | |- carries _ (read _ _) => apply carries_read
  | |- carries _ (speed_set _) => apply carries_speed
  | |- carries _ (bind _ _) => apply carries_bind; [|intros]
  | |- carries _ (if ?c then _ else _) => destruct c
  | |- carries _ (let '(_, _) := ?p in _) => destruct p
  | |- carries _ (match ?p with Some _ => _ | None => _ end) => destruct p
  end.

Ltac carry := repeat carry_step.

Lemma carries_slow_fill fuel offset current sofar r :
  carries Q (slow_fill log fuel offset current sofar r).
Proof.
  revert sofar r. induction fuel as [|fuel IH]; intros; cbn [slow_fill];
    carry. apply IH.
Qed.

Lemma carries_search_reads i current offset :
  carries Q (search_reads log i current offset).
Proof. unfold search_reads. carry; apply carries_slow_fill. Qed.

(** The attempt ends with the one-sector read at the test offset. *)
Lemma search_reads_last i current offset (d : D) :
  exists ret1 d1 e1,
    (Q d -> Q d1) /\
    search_reads log i current offset d =
      (let (ret2, d2) := cdda_read d1 offset 1 in
       (Next (ret1, ret2), d2, e1 ++ EvRead offset 1 ret2 :: logq log d2)).
Proof.
  pose proof (search_reads_run log i current offset d)
    as (r1 & r2 & d' & pre & E & _).
  pose proof (carries_search_reads i current offset) as C.
  unfold search_reads in *. rewrite bind_unfold in E. rewrite bind_unfold.
  lazymatch goal with
  | |- context [ (if 5 <=? i then ?a else ?b) d ] =>
      set (fill := if 5 <=? i then a else b) in *
  end.
  assert (Cf : carries Q fill)
    by (unfold fill; carry; apply carries_slow_fill).
  specialize (Cf d).
  destruct (fill d) as [[[ret1|c] d1] e1]; [|discriminate].
  exists ret1, d1, e1. split; [exact Cf|].
  rewrite bind_unfold. unfold read. destruct (cdda_read d1 offset 1).
  rewrite bind_unfold, logC_ms_run. cbn [ret]. now rewrite app_nil_r.
Qed.

Lemma carries_sample_reads fuel offset i sofar samples :
  carries Q (sample_reads fuel offset i sofar samples).
Proof.
  revert i sofar samples. induction fuel as [|fuel IH]; intros;
    cbn [sample_reads]; carry. apply IH.
Qed.

Lemma carries_baseline first lst : carries Q (baseline first lst).
Proof.
  unfold baseline. carry.
  generalize (Z.to_nat (lst - first - window - 1 - first + 1)).
  generalize {| best := 0; bestcount := 0; iterating := false |}.
  generalize (lst - first - window - 1).
  intros offset p fuel. revert offset p. induction fuel as [|fuel IH];
    intros; cbn [baseline_loop]; unfold sample_offset; carry;
    try apply carries_sample_reads; try apply IH.
Qed.

End Carries.

Section Dead_drive.

Context {D : Type} `{Drive D}.
Variable CACHEMODEL_SECTORS : Z.
Variable log : bool.

(** The states of a drive all of whose reads fail. *)
Variable failing : D -> Prop.

Hypothesis read_fails : forall d b n,
  failing d ->
  fst (cdda_read d b n) <= 0 /\ failing (snd (cdda_read d b n)).

Hypothesis speed_fails : forall d s,
  failing d -> failing (snd (cdda_speed_set d s)).

Lemma failing_read_keeps d b n : failing d -> failing (snd (cdda_read d b n)).
Proof. intros F. now apply read_fails. Qed.

Lemma dead_search_round left lst i current offset (d : D) :
  failing d ->
  status (search_round log left lst i current offset d) = Exit (-1).
Proof.
  revert offset d. induction left as [|left IH]; intros offset d F;
    cbn [search_round]; rewrite bind_unfold;
    destruct (search_reads_last log failing failing_read_keeps speed_fails
                i current offset d) as (ret1 & d1 & e1 & F1 & ->);
    specialize (F1 F);
    pose proof (read_fails d1 offset 1 F1) as [R2 F2];
    destruct (cdda_read d1 offset 1) as [ret2 d2]; cbn [fst snd] in R2, F2;
    (destruct (Z.leb_spec ret2 0); [|lia]); rewrite orb_true_r.
  - reflexivity.
  - destruct (lst <? offset + (current + 100) + current); [reflexivity|].
    rewrite bind_unfold. cbn [reportC].
    specialize (IH (offset + (current + 100)) d2 F2).
    destruct (search_round log left lst i current
                (offset + (current + 100)) d2) as [[s d3] e3].
    cbn [status fst] in *. now rewrite IH.
Qed.

(** X9.  When every read fails, the routine never reaches a verdict: on a
    disc with audio it returns -1. *)
Theorem dead_drive_is_fatal (d : D) :
  failing d ->
  firstsector (longest_audio d) <> -1 ->
  fst (paranoia_analyze_verify CACHEMODEL_SECTORS log d) = -1.
Proof.
  intros F Audio. unfold paranoia_analyze_verify, analyze_verify.
  cbn [fst]. rewrite bind_unfold. cbn [reportC]. rewrite bind_unfold.
  destruct (Z.eqb_spec (firstsector (longest_audio d)) (-1)) as [E|_];
    [contradiction|].
  set (first := firstsector (longest_audio d)).
  set (lst := lastsector (longest_audio d)).
  rewrite bind_unfold.
  pose proof (behaves_baseline first lst d) as B.
  pose proof (carries_baseline failing failing_read_keeps first lst d F) as F1.
  destruct (baseline first lst d) as [[[[]|c] d1] e1].
  - rewrite bind_unfold. cbn [reportC]. rewrite bind_unfold.
    cbn [drive_of fst snd] in F1.
    unfold search. change (Z.to_nat (hi + 1)) with (S (Z.to_nat hi)).
    cbn [search_loop]. change (0 <=? hi) with true. cbv iota.
    rewrite bind_unfold. unfold search_probe. rewrite bind_unfold.
    cbn [reportC]. change 15%nat with (S 14). cbn [search_rounds].
    rewrite bind_unfold.
    pose proof (dead_search_round 10 lst 0 (0 + 1) first d1 F1) as R.
    destruct (search_round log 10 lst 0 (0 + 1) first d1) as [[s d2] e2].
    cbn [status fst] in R. now rewrite R.
  - destruct B as [-> _]. reflexivity.
Qed.

End Dead_drive.

(** ** A drive with a buffer *)

Section Served.

Context {D : Type} `{Drive D}.

(** The states of a drive that serves at least one sector of every read. *)
Variable serving : D -> Prop.

Hypothesis read_served : forall d b n,
  serving d -> 0 < n ->
  0 < fst (cdda_read d b n) /\ serving (snd (cdda_read d b n)).

Lemma served_sample_reads fuel offset i sofar samples (d : D) :
  serving d ->
  exists got d' ev,
    sample_reads fuel offset i sofar samples d = (Next got, d', ev) /\
    serving d'.
Proof.
  revert i sofar samples d. induction fuel as [|fuel IH];
    intros i sofar samples d Sd; cbn [sample_reads].
  - now exists (Some samples), d, [].
  - destruct (Z.ltb_spec sofar window) as [L|L];
      [|now exists (Some samples), d, []].
    rewrite bind_unfold. unfold read.
    pose proof (read_served d (offset + sofar)
                  (if i =? 0 then 1 else window - sofar) Sd
                  ltac:(destruct (i =? 0); lia)) as [R S1].
    destruct (cdda_read d (offset + sofar)
                (if i =? 0 then 1 else window - sofar)) as [r d1].
    cbn [fst snd] in R, S1. destruct (Z.leb_spec r 0); [lia|].
    rewrite bind_unfold. unfold milliseconds.
    destruct (IH (i + 1) (sofar + r)
                (samples ++ [(clamp_ms (cdda_milliseconds d1), r)]) d1 S1)
      as (got & d' & ev & -> & S').
    now do 3 eexists.
Qed.

Lemma served_baseline_loop fuel first p offset (d : D) :
  serving d ->
  exists d' ev,
    baseline_loop fuel first p offset d = (Next tt, d', ev) /\ serving d'.
Proof.
  revert p offset d. induction fuel as [|fuel IH]; intros p offset d Sd;
    cbn [baseline_loop].
  - now exists d, [].
  - destruct (first <=? offset); [|now exists d, []].
    rewrite bind_unfold.
    assert (Step : exists p' d1 e1,
      sample_offset p offset d = (Next p', d1, e1) /\ serving d1).
    { unfold sample_offset. rewrite bind_unfold.
      assert (E : exists e0,
        (if iterating p then reportC MsgNewline else ret tt) d
        = (Next tt, d, e0))
        by (destruct (iterating p); eexists; reflexivity).
      destruct E as [e0 ->].
      rewrite bind_unfold. cbn [reportC]. rewrite bind_unfold. unfold read.
      pose proof (read_served d (offset + window + 1) 1 Sd ltac:(lia))
        as [R S1].
      destruct (cdda_read d (offset + window + 1) 1) as [r d1].
      cbn [fst snd] in R, S1. destruct (Z.ltb_spec r 0); [lia|].
      rewrite bind_unfold.
      destruct (served_sample_reads (Z.to_nat window) offset 0 0 [] d1 S1)
        as (got & d2 & ev & -> & S2).
      destruct got; cbn [ret]; now do 3 eexists. }
    destruct Step as (p' & d1 & e1 & -> & S1).
    destruct (IH p' (next_offset p' first offset) d1 S1)
      as (d2 & e2 & -> & S2).
    now do 2 eexists.
Qed.

(** The baseline goes on to the search when every read is served. *)
Lemma served_baseline first lst (d : D) :
  serving d ->
  exists d' ev, baseline first lst d = (Next tt, d', ev) /\ serving d'.
Proof.
  intros Sd. unfold baseline. rewrite bind_unfold. cbn [reportC].
  destruct (served_baseline_loop
              (Z.to_nat (lst - first - window - 1 - first + 1)) first
              {| best := 0; bestcount := 0; iterating := false |}
              (lst - first - window - 1) d Sd) as (d' & ev & -> & S').
  now do 2 eexists.
Qed.

End Served.

Section Cached_drive.

Variable CACHEMODEL_SECTORS : Z.
Variable log : bool.
Variable C : Z.

Lemma cached_served (d : cached) b n :
  c_size d = C -> 0 < n ->
  0 < fst (cdda_read d b n) /\ c_size (snd (cdda_read d b n)) = C.
Proof. intros S N. cbn. auto. Qed.

(** After a read that ends at sector [h], the one-sector read at [o]. *)
Lemma cached_reread (d : cached) o :
  cdda_read d o 1 =
    (1, {| c_toc := c_toc d; c_size := c_size d; c_head := o;
           c_ms := if (c_head d - c_size d <? o) && (o <=? c_head d)
                   then 1 else 20 |}).
Proof. cbn. unfold cached_read. do 3 f_equal. lia. Qed.

Lemma cached_slow_fill L o (d : cached) :
  1 <= L ->
  exists d' ev,
    slow_fill log (Z.to_nat L) o L 0 0 d = (Next L, d', ev) /\
    c_size d' = c_size d /\ c_head d' = o + L - 1.
Proof.
  intros HL. destruct (Z.to_nat L) as [|fuel] eqn:EL; [lia|].
  cbn [slow_fill]. destruct (Z.ltb_spec 0 L); [|lia].
  rewrite bind_unfold. unfold read. cbn [cdda_read cached_drive cached_read].
  rewrite bind_unfold, logC_ms_run.
  destruct (Z.leb_spec (L - 0) 0); [lia|].
  replace (L - 0) with L by lia. replace (0 + L) with L by lia.
  destruct fuel as [|fuel]; cbn [slow_fill].
  - do 2 eexists. split; [reflexivity|]. cbn. split; [reflexivity|lia].
  - destruct (Z.ltb_spec L L); [lia|].
    do 2 eexists. split; [reflexivity|]. cbn. split; [reflexivity|lia].
Qed.

(** A round at probe length [L]: a hit exactly when [L] sectors fit the
    buffer. *)
Lemma cached_search_round left lst i L o (d : cached) :
  c_size d = C -> 1 <= L ->
  exists d' ev,
    search_round log left lst i L o d = (Next (L <=? C, o), d', ev) /\
    c_size d' = C.
Proof.
  intros S HL.
  assert (Reads : exists d1 e1,
    search_reads log i L o d = (Next (if 5 <=? i then L else 1, 1), d1, e1) /\
    c_size d1 = C /\ c_ms d1 = if L <=? C then 1 else 20).
  { unfold search_reads. rewrite bind_unfold.
    assert (Hit : forall h, h = o + L - 1 ->
              (if (h - C <? o) && (o <=? h) then 1 else 20) =
              (if L <=? C then 1 else 20))
      by (intros h ->; destruct (Z.ltb_spec (o + L - 1 - C) o),
            (Z.leb_spec o (o + L - 1)), (Z.leb_spec L C);
            cbn [andb]; lia || reflexivity).
    destruct (5 <=? i).
    - rewrite bind_unfold.
      assert (E : exists e0 d0,
        (if i =? 5
         then reportC (MsgSlowVerify (L - 1));; speed_set 1;; ret tt
         else ret tt) d = (Next tt, d0, e0) /\ d0 = d)
        by (destruct (i =? 5); do 2 eexists; split; reflexivity).
      destruct E as (e0 & d0 & -> & ->).
      destruct (cached_slow_fill L o d HL) as (d1 & e1 & -> & S1 & H1).
      rewrite bind_unfold. unfold read. rewrite cached_reread.
      rewrite bind_unfold, logC_ms_run. cbn [ret].
      do 2 eexists. split; [reflexivity|]. cbn [c_size c_ms].
      split; [congruence|]. rewrite S1, S. now apply Hit.
    - rewrite bind_unfold. unfold read at 1. rewrite cached_reread.
      rewrite bind_unfold, logC_ms_run. cbn [ret].
      rewrite bind_unfold. unfold read. rewrite cached_reread.
      rewrite bind_unfold, logC_ms_run. cbn [ret].
      do 2 eexists. split; [reflexivity|]. cbn [c_size c_ms c_head].
      split; [exact S|]. rewrite S. apply Hit. lia. }
  destruct Reads as (d1 & e1 & E & S1 & M).
  assert (Ok : ((if 5 <=? i then L else 1) <=? 0) || (1 <=? 0) = false)
    by (destruct (5 <=? i); [destruct (Z.leb_spec L 0); [lia|]|]; reflexivity).
  destruct left; cbn [search_round]; rewrite bind_unfold, E, Ok;
    rewrite bind_unfold; unfold milliseconds;
    cbn [cdda_milliseconds cached_drive]; rewrite M;
    destruct (L <=? C); cbn; do 2 eexists; split; try reflexivity; exact S1.
Qed.

Lemma cached_search_rounds n lst i L o (d : cached) :
  c_size d = C -> 1 <= L ->
  exists d' ev,
    search_rounds log (S n) lst i L o d = (Next (L <=? C, o), d', ev) /\
    c_size d' = C.
Proof.
  intros S HL. revert i d S. induction n as [|n IH]; intros i d S;
    cbn [search_rounds]; rewrite bind_unfold;
    destruct (cached_search_round 10 lst i L o d S HL)
      as (d1 & e1 & -> & S1);
    destruct (L <=? C) eqn:E.
  - now do 2 eexists.
  - now do 2 eexists.
  - now do 2 eexists.
  - destruct (IH (i + 1) d1 S1) as (d2 & e2 & E2 & S2).
    cbn [search_rounds] in E2. rewrite E2. now do 2 eexists.
Qed.

(** The search on the buffered drive stops at probe length [C + 1]. *)
Lemma cached_search_loop fuel lst c o (d : cached) :
  c_size d = C -> 0 <= c <= C -> C < hi ->
  (Z.to_nat (C - c) < fuel)%nat ->
  exists d' ev,
    search_loop log fuel lst c o d = (Next (C + 1, false, o), d', ev) /\
    c_size d' = C.
Proof.
  intros S Hc Hi. revert c d S Hc. induction fuel as [|fuel IH];
    intros c d S Hc F; [lia|].
  cbn [search_loop]. destruct (Z.leb_spec c hi); [|lia].
  rewrite bind_unfold. unfold search_probe. rewrite bind_unfold.
  cbn [reportC].
  destruct (cached_search_rounds 14 lst 0 (c + 1) o d S ltac:(lia))
    as (d1 & e1 & -> & S1).
  destruct (Z.leb_spec (c + 1) C).
  - destruct (IH (c + 1) d1 S1 ltac:(lia) ltac:(lia))
      as (d2 & e2 & -> & S2).
    now do 2 eexists.
  - replace c with C by lia. now do 2 eexists.
Qed.

Lemma cached_contig_rounds n lst L o (d : cached) :
  c_size d = C -> 0 <= C < 3 * L -> o + L * 3 <= lst ->
  exists d' ev,
    contig_rounds log n lst L (L * 3) o d = (Next (false, o), d', ev) /\
    c_size d' = C.
Proof.
  intros S HL Room. revert d S. induction n as [|n IH]; intros d S;
    cbn [contig_rounds]; [now do 2 eexists|].
  rewrite bind_unfold. cbn [contig_round].
  destruct (Z.ltb_spec lst (o + L * 3)); [lia|].
  rewrite bind_unfold. unfold read at 1. rewrite cached_reread.
  rewrite bind_unfold, logC_ms_run, bind_unfold. unfold read.
  rewrite cached_reread. rewrite bind_unfold, logC_ms_run.
  cbn [orb Z.leb Z.compare]. rewrite bind_unfold. unfold milliseconds.
  cbn [cdda_milliseconds cached_drive c_ms c_head c_size]. rewrite S.
  destruct (Z.ltb_spec (o + L * 3 - C) o); [lia|]. cbn [andb Z.eqb].
  cbn [ret]. change (20 <? 9) with false. cbv iota.
  match goal with
  | |- context [contig_rounds log n lst L (L * 3) o ?d1] =>
      destruct (IH d1 eq_refl) as (d2 & e2 & -> & S2)
  end.
  now do 2 eexists.
Qed.

(** X10.  On the drive with a read-ahead buffer of [C] sectors, for
    [1 <= C <= 14998] and a stretch of audio with room for the contiguity
    check, the routine reports a cache of exactly [C] sectors, finds it
    contiguous, and returns 0 if [C] is within the model limit and 1
    otherwise. *)
Theorem buffer_size_is_found (d : cached) :
  c_size d = C -> 1 <= C <= 14998 ->
  firstsector (longest_audio d) <> -1 ->
  firstsector (longest_audio d) + 3 * (C + 1) <= lastsector (longest_audio d) ->
  fst (paranoia_analyze_verify CACHEMODEL_SECTORS log d) =
    (if CACHEMODEL_SECTORS <? C then 1 else 0) /\
  In (EvReport (MsgCacheSize C))
    (snd (paranoia_analyze_verify CACHEMODEL_SECTORS log d)) /\
  last (snd (paranoia_analyze_verify CACHEMODEL_SECTORS log d))
    (EvReport MsgBanner) = EvReport MsgContiguous.
Proof.
  intros S HC Audio Room.
  unfold paranoia_analyze_verify, analyze_verify.
  rewrite bind_unfold. cbn [reportC]. rewrite bind_unfold.
  destruct (Z.eqb_spec (firstsector (longest_audio d)) (-1)) as [E|_];
    [contradiction|].
  set (first := firstsector (longest_audio d)) in *.
  set (lst := lastsector (longest_audio d)) in *.
  rewrite bind_unfold.
  destruct (served_baseline (fun d => c_size d = C)
              (fun d b n S N => cached_served d b n S N) first lst d S)
    as (d1 & e1 & -> & S1).
  rewrite bind_unfold. cbn [reportC]. rewrite bind_unfold.
  unfold search.
  destruct (cached_search_loop (Z.to_nat (hi + 1)) lst 0 first d1 S1)
    as (d2 & e2 & -> & S2); [lia|unfold hi; lia|unfold hi; lia|].
  unfold conclude.
  destruct (Z.eqb_spec (C + 1) hi) as [Eh|_]; [unfold hi in Eh; lia|].
  destruct (Z.ltb_spec 1 (C + 1)); [|lia].
  rewrite bind_unfold. cbn [reportC]. rewrite bind_unfold.
  replace (C + 1 - 1) with C by lia.
  assert (W : exists e3,
    (if CACHEMODEL_SECTORS <? C then reportC MsgExceedsModel;; ret 1
     else ret 0) d2 =
    (Next (if CACHEMODEL_SECTORS <? C then 1 else 0), d2, e3))
    by (destruct (CACHEMODEL_SECTORS <? C); eexists; reflexivity).
  destruct W as (e3 & ->).
  rewrite bind_unfold. unfold verify_contiguous.
  rewrite bind_unfold. cbn [reportC]. rewrite bind_unfold.
  destruct (cached_contig_rounds 30 lst (C + 1) first d2 S2)
    as (d3 & e4 & -> & S3); [lia|lia|].
  cbn [fst reportC ret exit bind status trace snd code_of].
  split; [reflexivity|]. split.
  - rewrite !in_app_iff. cbn [In]. tauto.
  - rewrite !app_nil_r, !app_assoc. apply last_last.
Qed.

End Cached_drive.

(** ** The reported mean and the slow fill *)

Section Mean_facts.

Open Scope R_scope.










End Mean_facts.

Section Fill_facts.

Context {D : Type} `{Drive D}.
Variable log : bool.

Lemma refills_logq offset current sofar (d : D) tl :
  refills offset current sofar (logq log d ++ tl) =
  refills offset current sofar tl.
Proof. unfold logq. now destruct log. Qed.

Lemma served_logq (d : D) tl : served (logq log d ++ tl) = served tl.
Proof. unfold logq. now destruct log. Qed.

Lemma slow_fill_refills fuel offset current sofar r0 (d : D) :
  current - sofar <= Z.of_nat fuel ->
  match slow_fill log fuel offset current sofar r0 d with
  | (Next ret1, _, ev) =>
      refills offset current sofar ev = true /\
      (ret1 <= 0 /\ ev <> [] \/ current <= sofar + served ev)
  | (Exit _, _, _) => False
  end.
Proof.
  revert sofar r0 d. induction fuel as [|fuel IH]; intros sofar r0 d F;
    cbn [slow_fill].
  - cbn. split; [reflexivity|right; lia].
  - destruct (Z.ltb_spec sofar current) as [L|L];
      [|cbn; split; [reflexivity|right; lia]].
    rewrite bind_unfold. unfold read at 1.
    destruct (cdda_read d (offset + sofar) (current - sofar)) as [r d1].
    rewrite bind_unfold, logC_ms_run.
    destruct (Z.leb_spec r 0) as [R|R].
    + cbn [ret app refills]. rewrite !Z.eqb_refl, refills_logq.
      split; [reflexivity|left; split; [exact R|discriminate]].
    + specialize (IH (sofar + r) r d1 ltac:(lia)).
      destruct (slow_fill log fuel offset current (sofar + r) r d1)
        as [[[ret1|c] d2] e2]; [|exact IH].
      destruct IH as [Rf Sv]. cbn [app refills served].
      rewrite !Z.eqb_refl, refills_logq, served_logq. split; [exact Rf|].
      destruct Sv as [[Rl _]|Sv]; [left; split; [exact Rl|discriminate]|].
      right. lia.
Qed.

(** X15.  The slow fill read takes short reads in its stride: every read
    starts where the sectors handed back so far end and asks for what is
    left of [current]; the fill ends on a failed read or once the reads
    have handed back [current] sectors or more. *)
Theorem slow_fill_asks_for_the_rest offset current (d : D) :
  match slow_fill log (Z.to_nat current) offset current 0 0 d with
  | (Next ret1, _, ev) =>
      refills offset current 0 ev = true /\
      (ret1 <= 0 /\ ev <> [] \/ current <= served ev)
  | (Exit _, _, _) => False
  end.
Proof.
  pose proof (slow_fill_refills (Z.to_nat current) offset current 0 0 d
                ltac:(lia)) as R.
  destruct (slow_fill log (Z.to_nat current) offset current 0 0 d)
    as [[[ret1|c] d'] ev]; [|exact R].
  now rewrite Z.add_0_l in R.
Qed.

End Fill_facts.

(** Witness of X1: a disc with one data track. *)
Lemma no_audio_no_drive_call_witness :
  let d := session [(false, 0, 999)] [] 20 in
  (forall t, cdda_track_audiop d t <> 1) /\
  paranoia_analyze_verify 1200 false d =
    (-1, [EvReport MsgBanner; EvReport MsgNoAudio]) /\
  drive_of (analyze_verify 1200 false d) = d.
Proof.
  intros d.
  assert (N : forall t, cdda_track_audiop d t <> 1).
  { intros t. cbn [cdda_track_audiop sim_drive]. unfold sim_track.
    cbn [sim_toc d session].
    destruct (Z.to_nat (t - 1)) as [|[|k]]; cbn; discriminate. }
  split; [exact N|]. exact (no_audio_no_drive_call 1200 false d N).
Defined.


(** Witness of X6. *)
Lemma settled_baseline_steps_by_ten_minutes_witness :
  let p := {| best := -3000; bestcount := 2500; iterating := true |} in
  iterating p = true /\ 0 <= 100000 /\
  (next_offset p 0 100000 - 0) mod 45000 = 0 /\
  100000 - 45000 <= next_offset p 0 100000 <= 100000 - 1.
Proof.
  intros p.
  assert (I : iterating p = true) by reflexivity.
  assert (L : 0 <= 100000) by lia.
  split; [exact I|]. split; [exact L|].
  exact (settled_baseline_steps_by_ten_minutes p 0 100000 I L).
Defined.

(** Witness of X5: a drive that hands back the window in reads of one and
    of 999 sectors. *)
Lemma sample_arrays_hold_the_window_witness :
  let d := session small_disc [(None, 12); (None, 3000)] 20 in
  let samples : list sample := [(12, 1); (3000, 999)] in
  let r := sample_reads (Z.to_nat window) 1000 0 0 [] d in
  r = (Next (Some samples), drive_of r, trace r) /\
  (length samples <= 1000)%nat /\ Forall stored samples /\
  window <= sectors_of samples.
Proof.
  intros d samples r.
  assert (Run : r = (Next (Some samples), drive_of r, trace r))
    by (vm_compute; reflexivity).
  split; [exact Run|].
  exact (sample_arrays_hold_the_window 1000 d (drive_of r) (trace r) samples
           Run).
Defined.

(** Witness of X9: the dead drive with the mixed-mode disc. *)
Lemma dead_drive_is_fatal_witness :
  let d := {| dead_toc := mixed_disc |} in
  firstsector (longest_audio d) <> -1 /\
  fst (paranoia_analyze_verify 1200 false d) = -1.
Proof.
  intros d.
  assert (Audio : firstsector (longest_audio d) <> -1)
    by (vm_compute; discriminate).
  split; [exact Audio|].
  apply (dead_drive_is_fatal 1200 false (fun _ : dead => True)); auto.
  intros d0 b n _. cbn. split; [lia|exact I].
Defined.

(** Witness of X10: a buffer of 64 sectors, the mixed-mode disc. *)
Lemma buffer_size_is_found_witness :
  let d := {| c_toc := mixed_disc; c_size := 64; c_head := -1; c_ms := 0 |} in
  c_size d = 64 /\ 1 <= 64 <= 14998 /\
  firstsector (longest_audio d) <> -1 /\
  firstsector (longest_audio d) + 3 * (64 + 1) <= lastsector (longest_audio d) /\
  fst (paranoia_analyze_verify 1200 false d) = (if 1200 <? 64 then 1 else 0) /\
  In (EvReport (MsgCacheSize 64)) (snd (paranoia_analyze_verify 1200 false d)) /\
  last (snd (paranoia_analyze_verify 1200 false d)) (EvReport MsgBanner) =
    EvReport MsgContiguous.
Proof.
  intros d.
  assert (S : c_size d = 64) by reflexivity.
  assert (HC : 1 <= 64 <= 14998) by lia.
  assert (Audio : firstsector (longest_audio d) <> -1)
    by (vm_compute; discriminate).
  assert (Room : firstsector (longest_audio d) + 3 * (64 + 1)
                 <= lastsector (longest_audio d))
    by (vm_compute; discriminate).
  split; [exact S|]. split; [exact HC|]. split; [exact Audio|].
  split; [exact Room|].
  exact (buffer_size_is_found 1200 false 64 d S HC Audio Room).
Defined.


